(** * The state layer of the book catalogue (script.js)

    The script keeps two arrays, [books] and [tags], in module-level
    variables, mirrors them into two localStorage slots and redraws the
    page after every intent.  This development embeds the part of the
    script that reads and writes those arrays.

    Conventions of the embedding:
    - a JavaScript value is a [jsval]; numbers are IEEE-754 doubles
      ([PrimFloat.float]); strings are sequences of code units below 256,
      carried by [string];
    - a function that can raise returns a [result]; a function that also
      touches the module state is an [M] computation, which keeps the
      state reached when the exception leaves it;
    - a text handed to [JSON.parse] is represented by what the parser makes
      of it ([text]); values read from form fields, [parseInt] and
      [confirm] are arguments;
    - the three library functions whose tables are not reproduced here
      ([localeCompare], the rendering of a double, the reading of a double)
      are the fields of a [Runtime];
    - markup production (the DOM calls of the render functions) is left
      out and taken to complete; the in-place sort of [tags] that
      [renderTagControls] performs is state and is kept. *)

From Stdlib Require Import List ZArith String Ascii Bool Lia PrimFloat DecimalString.
From Stdlib Require Import Sorting.Sorted Sorting.Permutation.
From Stdlib Require FloatOps SpecFloat Uint63.
Import ListNotations.
Open Scope string_scope.
Set Warnings "-register-all".

(** ** Exceptions *)

Inductive error : Set := TypeError | SyntaxError.

Inductive result (A : Type) : Type :=
| Ok (a : A)
| Throw (e : error).
Arguments Ok {A} a.
Arguments Throw {A} e.

Definition rbind {A B} (r : result A) (k : A -> result B) : result B :=
  match r with
  | Ok a => k a
  | Throw e => Throw e
  end.

Notation "'let?' x ':=' r 'in' k" := (rbind r (fun x => k))
  (at level 10, x name, r at level 100, k at level 200).

Fixpoint mapM {A B} (f : A -> result B) (l : list A) : result (list B) :=
  match l with
  | [] => Ok []
  | x :: r => let? y := f x in let? ys := mapM f r in Ok (y :: ys)
  end.

(** ** Values *)

Inductive jsval : Type :=
| VUndef
| VNull
| VBool (b : bool)
| VNum (f : float)
| VStr (s : string)
| VArr (l : list jsval)
| VObj (fs : list (string * jsval)).

(** What [JSON.parse] makes of a text: a syntax error or a value. *)
Inductive text : Type :=
| NotJson
| JsonText (v : jsval).

(** The three library functions the script leans on. *)
Class Runtime : Type := {
  localeCompare : string -> string -> Z;   (* String.prototype.localeCompare *)
  numberToString : float -> string;        (* Number::toString *)
  stringToNumber : string -> float         (* Number(s) on a string *)
}.

(** ** Strings *)

Definition is_upper (c : ascii) : bool :=
  let n := N_of_ascii c in
  ((65 <=? n) && (n <=? 90) || (192 <=? n) && (n <=? 222) && negb (n =? 215))%N.

Definition lower_char (c : ascii) : ascii :=
  if is_upper c then ascii_of_N (N_of_ascii c + 32) else c.

Fixpoint toLowerCase (s : string) : string :=
  match s with
  | EmptyString => EmptyString
  | String c r => String (lower_char c) (toLowerCase r)
  end.

Definition is_space (c : ascii) : bool :=
  let n := N_of_ascii c in
  ((9 <=? n) && (n <=? 13) || (n =? 32) || (n =? 160))%N.

Fixpoint trimStart (s : string) : string :=
  match s with
  | EmptyString => EmptyString
  | String c r => if is_space c then trimStart r else s
  end.

Fixpoint trimEnd (s : string) : string :=
  match s with
  | EmptyString => EmptyString
  | String c r =>
      match trimEnd r with
      | EmptyString => if is_space c then EmptyString else String c EmptyString
      | r' => String c r'
      end
  end.

Definition trim (s : string) : string := trimEnd (trimStart s).

(** [s.includes(q)] *)
Fixpoint includes (s q : string) : bool :=
  prefix q s ||
  match s with
  | EmptyString => false
  | String _ r => includes r q
  end.

(** [xs.join(sep)] on strings *)
Definition join (sep : string) (xs : list string) : string := concat sep xs.

(** The relational operators on two strings compare code units. *)
Definition str_lt (a b : string) : bool :=
  match String.compare a b with Lt => true | _ => false end.
Definition str_gt (a b : string) : bool :=
  match String.compare a b with Gt => true | _ => false end.

Definition decimal (z : Z) : string := NilZero.string_of_int (Z.to_int z).

(** ** Reading values *)

Definition truthy (v : jsval) : bool :=
  match v with
  | VUndef | VNull => false
  | VBool b => b
  | VNum f => negb (is_zero f || is_nan f)
  | VStr s => negb (s =? "")
  | VArr _ | VObj _ => true
  end.

(** [a || b] *)
Definition or_else (a b : jsval) : jsval := if truthy a then a else b.

(** [a ?? b] *)
Definition coalesce (a b : jsval) : jsval :=
  match a with
  | VUndef | VNull => b
  | _ => a
  end.

Fixpoint get_own (fs : list (string * jsval)) (k : string) : jsval :=
  match fs with
  | [] => VUndef
  | (k', v) :: r => if k' =? k then v else get_own r k
  end.

Definition has_own (fs : list (string * jsval)) (k : string) : bool :=
  existsb (fun kv => fst kv =? k) fs.

(** [v.k] for a data key [k] (one that no prototype defines): reading from
    [undefined] or [null] raises, a primitive or an array has no such
    property. *)
Definition get (v : jsval) (k : string) : result jsval :=
  match v with
  | VUndef | VNull => Throw TypeError
  | VObj fs => Ok (get_own fs k)
  | _ => Ok VUndef
  end.

(** [o.k = x] on an object held by value: the property keeps its place, a
    new one goes last. *)
Fixpoint set_own (fs : list (string * jsval)) (k : string) (x : jsval)
  : list (string * jsval) :=
  match fs with
  | [] => [(k, x)]
  | (k', v) :: r => if k' =? k then (k', x) :: r else (k', v) :: set_own r k x
  end.

(** [v === s] for a string [s] *)
Definition is_string (v : jsval) (s : string) : bool :=
  match v with
  | VStr s' => s' =? s
  | _ => false
  end.

Section Conversions.
Context {rt : Runtime}.

(** [String(v)].  A parsed object has no callable [toString] of its own:
    when it carries the key, the conversion finds nothing to call and
    raises; otherwise [Object.prototype.toString] answers.  An array
    joins its elements with commas, holes and nulls as empty strings. *)
Fixpoint ToString (v : jsval) : result string :=
  match v with
  | VUndef => Ok "undefined"
  | VNull => Ok "null"
  | VBool true => Ok "true"
  | VBool false => Ok "false"
  | VNum f => Ok (numberToString f)
  | VStr s => Ok s
  | VArr l =>
      let? ss := mapM (fun x => match x with
                                | VUndef | VNull => Ok ""
                                | _ => ToString x
                                end) l in
      Ok (join "," ss)
  | VObj fs => if has_own fs "toString" then Throw TypeError
               else Ok "[object Object]"
  end.

(** [v.toString()] *)
Definition toString (v : jsval) : result string :=
  match v with
  | VUndef | VNull => Throw TypeError
  | _ => ToString v
  end.
End Conversions.

(** ** [Array.prototype.sort]

    The sort is stable and, when the comparison raises, leaves the array
    as it was.  Each element is placed among the ones before it, the
    comparison receiving the element being placed first.  (The arrays of
    the script hold no [undefined], which the engine would set aside
    without comparing.) *)

Section ArraySort.
Context {A : Type} (cmp : A -> A -> result Z).

Fixpoint insert (x : A) (l : list A) : result (list A) :=
  match l with
  | [] => Ok [x]
  | y :: r =>
      let? c := cmp x y in
      if (c <? 0)%Z then Ok (x :: l)
      else let? r' := insert x r in Ok (y :: r')
  end.

Definition Array_sort (l : list A) : result (list A) :=
  fold_left (fun acc x => let? a := acc in insert x a) l (Ok []).
End ArraySort.

(** ** [JSON.stringify] followed by [JSON.parse]

    [json_value v] is the value a parser reads back from the text written
    for an array or an object [v]: a property holding [undefined] is not written, an array slot
    holding [undefined] and a number that is not finite are written as
    [null], and both zeros are written as [0]. *)

Fixpoint json_value (v : jsval) : jsval :=
  match v with
  | VUndef => VNull
  | VNum f => if is_finite f then (if is_zero f then VNum zero else v) else VNull
  | VArr l => VArr (map json_value l)
  | VObj fs =>
      VObj ((fix props (fs : list (string * jsval)) :=
               match fs with
               | [] => []
               | (k, VUndef) :: r => props r
               | (k, x) :: r => (k, json_value x) :: props r
               end) fs)
  | _ => v
  end.

Definition JSON_stringify (v : jsval) : text := JsonText (json_value v).

Definition JSON_parse (t : text) : result jsval :=
  match t with
  | NotJson => Throw SyntaxError
  | JsonText v => Ok v
  end.

(** ** Module state *)

Record state : Type := mkState {
  books : list jsval;
  tags : list jsval;
  lastSortKey : option string;
  sortOrder : Z;                   (* 1 asc, -1 desc *)
  stored_books : option text;      (* localStorage under books_v1 *)
  stored_tags : option text        (* localStorage under tags_v1 *)
}.

Definition set_books (l : list jsval) (s : state) : state :=
  mkState l (tags s) (lastSortKey s) (sortOrder s) (stored_books s) (stored_tags s).
Definition set_tags (l : list jsval) (s : state) : state :=
  mkState (books s) l (lastSortKey s) (sortOrder s) (stored_books s) (stored_tags s).
Definition set_sort (k : option string) (o : Z) (s : state) : state :=
  mkState (books s) (tags s) k o (stored_books s) (stored_tags s).
Definition set_stored_books (t : option text) (s : state) : state :=
  mkState (books s) (tags s) (lastSortKey s) (sortOrder s) t (stored_tags s).
Definition set_stored_tags (t : option text) (s : state) : state :=
  mkState (books s) (tags s) (lastSortKey s) (sortOrder s) (stored_books s) t.

(** A computation over the module state.  The state is returned on both
    outcomes: an exception does not undo the assignments made before it. *)
Definition M (A : Type) : Type := state -> result A * state.

Definition ret {A} (a : A) : M A := fun s => (Ok a, s).

Definition bind {A B} (m : M A) (k : A -> M B) : M B :=
  fun s => match m s with
           | (Ok a, s') => k a s'
           | (Throw e, s') => (Throw e, s')
           end.

Definition lift {A} (r : result A) : M A := fun s => (r, s).
Definition read {A} (f : state -> A) : M A := fun s => (Ok (f s), s).
Definition write (f : state -> state) : M unit := fun s => (Ok tt, f s).

(** [try { m } catch (e) { h }] *)
Definition try_catch {A} (m : M A) (h : M A) : M A :=
  fun s => match m s with
           | (Ok a, s') => (Ok a, s')
           | (Throw _, s') => h s'
           end.

Notation "x <- m ;; k" := (bind m (fun x => k))
  (at level 61, m at next level, right associativity).
Notation "m ;;; k" := (bind m (fun _ => k))
  (at level 61, right associativity).

Fixpoint forEach {A} (f : A -> M unit) (l : list A) : M unit :=
  match l with
  | [] => ret tt
  | x :: r => f x ;;; forEach f r
  end.

(** What the user is shown. *)
Inductive signal : Type :=
| Quiet
| Alert (msg : string).

(** ** The script *)

(** [{ name, color }] *)
Definition tag_object (name color : jsval) : jsval :=
  VObj [("name", name); ("color", color)].

Definition predefined : list (string * string) :=
  [ ("Math", "#2f9e44"); ("Physics", "#d9480f"); ("Biology", "#8d6e21") ].

Definition PREDEFINED_TAGS : list jsval :=
  map (fun nc => tag_object (VStr (fst nc)) (VStr (snd nc))) predefined.

(** [x | 0] on an integer *)
Definition ToInt32 (z : Z) : Z := ((z + 2 ^ 31) mod 2 ^ 32 - 2 ^ 31)%Z.

(** The loop of [colorForTagName] over the code units of a string. *)
Fixpoint hash_from (h : Z) (s : string) : Z :=
  match s with
  | EmptyString => h
  | String c r => hash_from (ToInt32 (h * 31 + Z.of_N (N_of_ascii c))) r
  end.

Definition hsl (h : Z) : string :=
  "hsl(" ++ decimal (Z.abs h mod 360) ++ " 70% 45%)".

Section Script.
Context {rt : Runtime}.

Definition saveBooks : M unit :=
  write (fun s => set_stored_books (Some (JSON_stringify (VArr (books s)))) s).

Definition saveTags : M unit :=
  write (fun s => set_stored_tags (Some (JSON_stringify (VArr (tags s)))) s).

(** The comparison of the sorts in [loadTags], [ensureTagExists],
    [renderTagControls] and [init]:
    [String(a.name).localeCompare(String(b.name))]. *)
Definition byName (a b : jsval) : result Z :=
  let? an := get a "name" in
  let? sa := ToString an in
  let? bn := get b "name" in
  let? sb := ToString bn in
  Ok (localeCompare sa sb).

(** The comparison of the sort in [importBackup]:
    [a.name.localeCompare(b.name)].  Only a string has the method. *)
Definition byNameStrict (a b : jsval) : result Z :=
  let? an := get a "name" in
  let? bn := get b "name" in
  match an with
  | VStr sa => let? sb := ToString bn in Ok (localeCompare sa sb)
  | _ => Throw TypeError
  end.

(** [tags.sort(cmp)] *)
Definition sortTags (cmp : jsval -> jsval -> result Z) : M unit :=
  fun s => match Array_sort cmp (tags s) with
           | Ok l => (Ok tt, set_tags l s)
           | Throw e => (Throw e, s)
           end.

(** [PREDEFINED_TAGS.slice().sort((a,b)=>a.name.localeCompare(b.name))] *)
Definition base_tags : result (list jsval) :=
  Array_sort byNameStrict PREDEFINED_TAGS.

(** [loadTags] reads the slot: an absent or empty text, a text that does
    not parse, a value that is not a non-empty array and a comparison that
    raises all end in the predefined tags, which are written back. *)
Definition loadTags : M (list jsval) :=
  fun s =>
    let fallback :=
      match base_tags with
      | Ok base => (Ok base,
                    set_stored_tags (Some (JSON_stringify (VArr base))) s)
      | Throw e => (Throw e, s)
      end in
    match stored_tags s with
    | Some (JsonText (VArr (x :: l))) =>
        match Array_sort byName (x :: l) with
        | Ok parsed => (Ok parsed, s)
        | Throw _ => fallback
        end
    | _ => fallback
    end.

(** [0 < v], the loop test of [colorForTagName] against [name.length] *)
Definition positive (v : jsval) : result bool :=
  match v with
  | VUndef | VNull => Ok false
  | VBool b => Ok b
  | VNum f => Ok (0 <? f)%float
  | VStr s => Ok (0 <? stringToNumber s)%float
  | VArr _ => let? s := ToString v in Ok (0 <? stringToNumber s)%float
  | VObj fs => if has_own fs "toString" then Throw TypeError else Ok false
  end.

(** [colorForTagName(name)].  A value without a positive [length] leaves
    the loop at once; one with a positive [length] that is not a string has
    no [charCodeAt] to call. *)
Definition colorForTagName (name : jsval) : result string :=
  match name with
  | VUndef | VNull => Throw TypeError
  | VStr s => Ok (hsl (hash_from 0 s))
  | VBool _ | VNum _ => Ok (hsl 0)
  | VArr [] => Ok (hsl 0)
  | VArr (_ :: _) => Throw TypeError
  | VObj fs =>
      let? p := positive (get_own fs "length") in
      if p then Throw TypeError else Ok (hsl 0)
  end.

(** [tags.find(t => t.name === name)] *)
Fixpoint find_by_name (l : list jsval) (name : string) : result jsval :=
  match l with
  | [] => Ok VUndef
  | t :: r =>
      let? n := get t "name" in
      if is_string n name then Ok t else find_by_name r name
  end.

Definition findTagByName (name : string) : M jsval :=
  fun s => (find_by_name (tags s) name, s).

(** [renderTagControls]: the sort of [tags]; the markup is not modelled. *)
Definition renderTagControls : M unit := sortTags byName.

(** [ensureTagExists(name)] for a string argument, for which
    [String(name || "")] is the argument. *)
Definition ensureTagExists (name : string) : M jsval :=
  let name := trim name in
  if name =? "" then ret VNull
  else
    existing <- findTagByName name ;;
    if truthy existing then ret existing
    else
      color <- lift (colorForTagName (VStr name)) ;;
      let t := tag_object (VStr name) (VStr color) in
      write (fun s => set_tags (tags s ++ [t]) s) ;;;
      sortTags byName ;;;
      saveTags ;;;
      renderTagControls ;;;
      ret t.

(** [renderAll]: of its three calls only [renderTagControls] writes. *)
Definition renderAll : M unit := renderTagControls.

(** *** Filters *)

Record filters : Type := mkFilters {
  searchInput : string;
  authorFilter : string;
  yearFilter : string;
  filterTags : list string        (* the checked .filterTag boxes *)
}.

Fixpoint filterM {A} (p : A -> result bool) (l : list A) : result (list A) :=
  match l with
  | [] => Ok []
  | x :: r =>
      let? keep := p x in
      let? r' := filterM p r in
      Ok (if keep then x :: r' else r')
  end.

(** [xs.every(p)] stops at the first element that fails. *)
Fixpoint everyM {A} (p : A -> result bool) (l : list A) : result bool :=
  match l with
  | [] => Ok true
  | x :: r => let? ok := p x in if ok then everyM p r else Ok false
  end.

(** [v.includes(x)] for a string [x]: an array looks for the element, a
    string for the substring, nothing else has the method. *)
Definition includes_of (v : jsval) (x : string) : result bool :=
  match v with
  | VArr l => Ok (existsb (fun e => is_string e x) l)
  | VStr s => Ok (includes s x)
  | _ => Throw TypeError
  end.

(** [v.map(t => t.toString().toLowerCase()).join(" ")] *)
Definition lower_tags (v : jsval) : result string :=
  match v with
  | VArr l =>
      let? ss := mapM (fun t => let? s := toString t in Ok (toLowerCase s)) l in
      Ok (join " " ss)
  | _ => Throw TypeError
  end.

(** The callback of [books.filter] in [applyFilters]. *)
Definition matches (f : filters) (b : jsval) : result bool :=
  let q := trim (toLowerCase (searchInput f)) in
  let selectedAuthor := authorFilter f in
  let selectedYear := yearFilter f in
  let selectedTags := filterTags f in
  let? t := get b "title" in
  let? title := toString (or_else t (VStr "")) in
  let title := toLowerCase title in
  let? a := get b "author" in
  let? author := toString (or_else a (VStr "")) in
  let author := toLowerCase author in
  let? tg := get b "tags" in
  let? tagsLower := lower_tags (or_else tg (VArr [])) in
  let textMatch :=
    (q =? "") || includes title q || includes author q || includes tagsLower q in
  let authorMatch := (selectedAuthor =? "") || is_string a selectedAuthor in
  let? yearMatch :=
    if selectedYear =? "" then Ok true
    else let? y := get b "year" in
         let? ys := ToString y in
         Ok (ys =? selectedYear) in
  let? tagsMatch :=
    if (List.length selectedTags =? 0)%nat then Ok true
    else everyM (fun t => includes_of (or_else tg (VArr [])) t) selectedTags in
  Ok (textMatch && authorMatch && yearMatch && tagsMatch).

(** [applyFilters]: the list handed to [renderTable]. *)
Definition applyFilters (f : filters) : M (list jsval) :=
  fun s => (filterM (matches f) (books s), s).

(** *** Sorting *)

Definition sortKey (key : string) (a : jsval) : result string :=
  let? v := get a key in
  let? s := toString (coalesce v (VStr "")) in
  Ok (toLowerCase s).

(** The comparison of [books.sort] in [sortBy]. *)
Definition byKey (key : string) (order : Z) (a b : jsval) : result Z :=
  let? A := sortKey key a in
  let? B := sortKey key b in
  if str_lt A B then Ok (-1 * order)%Z
  else if str_gt A B then Ok (1 * order)%Z
  else Ok 0%Z.

Definition same_key (last : option string) (key : string) : bool :=
  match last with
  | Some k => k =? key
  | None => false
  end.

(** [sortBy(key)]; the closing [applyFilters()] redraws and is left out. *)
Definition sortBy (key : string) : M unit :=
  write (fun s => if same_key (lastSortKey s) key
                  then set_sort (lastSortKey s) (- sortOrder s) s
                  else set_sort (Some key) 1 s) ;;;
  (fun s => match Array_sort (byKey key (sortOrder s)) (books s) with
            | Ok l => (Ok tt, set_books l s)
            | Throw e => (Throw e, s)
            end) ;;;
  saveBooks.

(** *** Books *)

Record form : Type := mkForm {
  editingIndex : option Z;        (* parseInt of the hidden field; None is NaN *)
  f_title : string;
  f_author : string;
  f_year : string;
  f_link : string;
  formTags : list string          (* the checked .formTag boxes *)
}.

(** [Array.from(new Set(xs))]: first occurrences, in order. *)
Definition dedupe (xs : list string) : list string :=
  fold_left (fun seen x => if existsb (String.eqb x) seen then seen else (seen ++ [x])%list)
            xs [].

(** [idx >= 0 && idx < n] *)
Definition in_range (idx : option Z) (n : nat) : bool :=
  match idx with
  | Some i => ((0 <=? i) && (i <? Z.of_nat n))%Z
  | None => false
  end.

(** [xs[i] = x] for [i] within the array *)
Fixpoint assign {A} (xs : list A) (i : nat) (x : A) : list A :=
  match xs, i with
  | [], _ => []
  | _ :: r, O => x :: r
  | y :: r, S j => y :: assign r j x
  end.

(** [xs.splice(index, 1)] on the array: a negative index counts from the
    end, and nothing is removed at or past the end. *)
Fixpoint remove_at {A} (xs : list A) (i : nat) : list A :=
  match xs, i with
  | [], _ => []
  | _ :: r, O => r
  | y :: r, S j => y :: remove_at r j
  end.

Definition splice1 {A} (xs : list A) (index : Z) : list A :=
  let len := Z.of_nat (List.length xs) in
  let start := if (index <? 0)%Z then Z.max (len + index) 0 else Z.min index len in
  remove_at xs (Z.to_nat start).

Definition saveForm (f : form) : M signal :=
  let idx := editingIndex f in
  let title := trim (f_title f) in
  let author := trim (f_author f) in
  let yearVal := f_year f in
  let year :=
    if yearVal =? "" then VStr ""
    else if is_nan (stringToNumber yearVal) then VStr yearVal
         else VNum (stringToNumber yearVal) in
  let link := trim (f_link f) in
  let checked := formTags f in
  if (title =? "") || (author =? "")
  then ret (Alert "Please provide at least Title and Author.")
  else
    let uniqueTags := dedupe checked in
    forEach (fun t => ensureTagExists t ;;; ret tt) uniqueTags ;;;
    uniqueTags <- lift (Array_sort (fun a b => Ok (localeCompare a b)) uniqueTags) ;;
    let bookObj :=
      VObj [("title", VStr title); ("author", VStr author); ("year", year);
            ("link", VStr link); ("tags", VArr (map VStr uniqueTags))] in
    write (fun s =>
             if in_range idx (List.length (books s))
             then set_books (assign (books s) (Z.to_nat (match idx with Some i => i | None => 0%Z end)) bookObj) s
             else set_books (books s ++ [bookObj]) s) ;;;
    saveBooks ;;;
    renderAll ;;;
    ret Quiet.

Definition deleteFromForm (idx : option Z) (confirmed : bool) : M unit :=
  fun s =>
    if in_range idx (List.length (books s)) then
      if negb confirmed then (Ok tt, s)
      else (write (set_books (splice1 (books s) (match idx with Some i => i | None => 0%Z end))) ;;;
            saveBooks ;;;
            renderAll) s
    else (Ok tt, s).

Definition deleteBook (index : Z) (confirmed : bool) : M unit :=
  if negb confirmed then ret tt
  else
    write (fun s => set_books (splice1 (books s) index) s) ;;;
    saveBooks ;;;
    renderAll.

(** *** Deleting a tag everywhere *)

(** [if (b.tags) b.tags = b.tags.filter(t => t !== tagName)] *)
Definition strip_tag (tagName : string) (b : jsval) : result jsval :=
  let? tg := get b "tags" in
  if truthy tg then
    match tg, b with
    | VArr l, VObj fs =>
        Ok (VObj (set_own fs "tags"
                    (VArr (filter (fun t => negb (is_string t tagName)) l))))
    | _, _ => Throw TypeError
    end
  else Ok b.

(** The [forEach] over [books]: the books before the one that raises keep
    their new tag sets. *)
Fixpoint strip_books (tagName : string) (l : list jsval) : list jsval * result unit :=
  match l with
  | [] => ([], Ok tt)
  | b :: r =>
      match strip_tag tagName b with
      | Ok b' => let (r', res) := strip_books tagName r in (b' :: r', res)
      | Throw e => (l, Throw e)
      end
  end.

Definition deleteTag (tagName : string) (confirmed : bool) : M unit :=
  tagObj <- findTagByName tagName ;;
  if negb (truthy tagObj) then ret tt
  else
    used <- (fun s => (filterM (fun b => let? tg := get b "tags" in
                                         includes_of (or_else tg (VArr [])) tagName)
                               (books s), s)) ;;
    let usedCount := List.length used in
    if negb confirmed then ret tt
    else
      (fun s => let (l, res) := strip_books tagName (books s) in (res, set_books l s)) ;;;
      saveBooks ;;;
      (fun s => match filterM (fun t => let? n := get t "name" in
                                        Ok (negb (is_string n tagName))) (tags s) with
                | Ok l => (Ok tt, set_tags l s)
                | Throw e => (Throw e, s)
                end) ;;;
      saveTags ;;;
      renderAll.

(** *** Import and export *)


(** The callback of [parsed.tags.map] in [importBackup]. *)
Definition importTag (t : jsval) : result jsval :=
  match t with
  | VStr _ =>
      let? c := colorForTagName t in
      Ok (tag_object t (VStr c))
  | _ =>
      let? n := get t "name" in
      let? c := get t "color" in
      let? color := if truthy c then Ok c
                    else let? h := colorForTagName n in Ok (VStr h) in
      Ok (tag_object n color)
  end.

(** [importBackup]: [file] is the text of the chosen file, if one was
    chosen. *)
Definition importBackup (file : option text) : M signal :=
  match file with
  | None => ret Quiet
  | Some content =>
      try_catch
        (parsed <- lift (JSON_parse content) ;;
         pb <- lift (get parsed "books") ;;
         match pb with
         | VArr l => write (set_books l)
         | _ => ret tt
         end ;;;
         pt <- lift (get parsed "tags") ;;
         match pt with
         | VArr l =>
             mapped <- lift (mapM importTag l) ;;
             sorted <- lift (Array_sort byNameStrict mapped) ;;
             write (set_tags sorted)
         | _ => ret tt
         end ;;;
         saveBooks ;;;
         saveTags ;;;
         renderAll ;;;
         ret (Alert "Import successful."))
        (ret (Alert "Invalid JSON file."))
  end.

(** *** Initialization *)

Definition init : M unit :=
  forEach (fun pt =>
             found <- findTagByName (fst pt) ;;
             if negb (truthy found)
             then write (fun s => set_tags (tags s ++ [tag_object (VStr (fst pt)) (VStr (snd pt))]) s)
             else ret tt) predefined ;;;
  sortTags byName ;;;
  saveTags ;;;
  renderAll.

(** The top level of the script as far as the tags go: [tags = loadTags()],
    the two sort variables, and [init()]. *)
Definition startup : M unit :=
  loaded <- loadTags ;;
  write (set_tags loaded) ;;;
  write (set_sort None 1) ;;;
  init.

End Script.

(** ** The records of the data model and their values *)

Record Tag : Type := mkTag {
  tag_name : string;
  tag_color : string
}.

Definition js_of_tag (t : Tag) : jsval :=
  tag_object (VStr (tag_name t)) (VStr (tag_color t)).

Inductive Year : Type :=
| YearText (s : string)
| YearNumber (f : float).

Definition js_of_year (y : Year) : jsval :=
  match y with
  | YearText s => VStr s
  | YearNumber f => VNum f
  end.

Record Book : Type := mkBook {
  title : string;
  author : string;
  year : Year;
  link : string;
  book_tags : list string
}.

Definition js_of_book (b : Book) : jsval :=
  VObj [("title", VStr (title b)); ("author", VStr (author b));
        ("year", js_of_year (year b)); ("link", VStr (link b));
        ("tags", VArr (map VStr (book_tags b)))].

(** An entry of the [tags] array of a backup file: a bare name, or an
    object with a name and perhaps a colour. *)
Inductive TagEntry : Type :=
| BareName (n : string)
| Named (n : string) (c : option string).

Definition js_of_entry (e : TagEntry) : jsval :=
  match e with
  | BareName n => VStr n
  | Named n (Some c) => tag_object (VStr n) (VStr c)
  | Named n None => VObj [("name", VStr n)]
  end.

(** What the slot of the tags can hold between two visits: nothing, a
    text that does not parse, or a list of tags as [saveTags] writes
    it. *)
Inductive slot : Type :=
| Absent
| Garbled
| Kept (ts : list Tag).

Definition text_of_slot (p : slot) : option text :=
  match p with
  | Absent => None
  | Garbled => Some NotJson
  | Kept ts => Some (JsonText (VArr (map js_of_tag ts)))
  end.

Definition predefined_tags : list Tag :=
  map (fun nc => mkTag (fst nc) (snd nc)) predefined.

(** ** The sort when the comparison cannot raise *)

Section PureSort.
Context {A : Type} (c : A -> A -> Z).

Fixpoint place (x : A) (l : list A) : list A :=
  match l with
  | [] => [x]
  | y :: r => if (c x y <? 0)%Z then x :: l else y :: place x r
  end.

Definition sorted_copy (l : list A) : list A :=
  fold_left (fun acc x => place x acc) l [].

(** Ascending for the comparison: no element is followed, at any
    distance, by one the comparison puts before it. *)
Definition ascending (l : list A) : Prop :=
  StronglySorted (fun a b => (c a b <= 0)%Z) l.
End PureSort.

(** What [Array.prototype.sort] asks of a comparison to promise a sorted
    array, here on [localeCompare]. *)
Class Collation (rt : Runtime) : Prop := {
  collation_sign : forall a b,
    Z.sgn (localeCompare a b) = (- Z.sgn (localeCompare b a))%Z;
  collation_trans : forall a b d,
    (localeCompare a b <= 0)%Z -> (localeCompare b d <= 0)%Z ->
    (localeCompare a d <= 0)%Z
}.

(** ** The script on the records

    What the functions above compute when the arrays hold records of the
    data model; each is tied to the script by a lemma below. *)

Section OnRecords.
Context {rt : Runtime}.

Definition tagCompare (a b : Tag) : Z := localeCompare (tag_name a) (tag_name b).

Definition named (n : string) (t : Tag) : bool := tag_name t =? n.

(** The tag store [ensureTagExists] leaves behind. *)
Definition ensured (name : string) (ts : list Tag) : list Tag :=
  let name := trim name in
  if name =? "" then ts
  else match find (named name) ts with
       | Some _ => ts
       | None =>
           sorted_copy tagCompare
             (sorted_copy tagCompare (ts ++ [mkTag name (hsl (hash_from 0 name))])%list)
       end.

(** The value it returns. *)
Definition ensured_tag (name : string) (ts : list Tag) : jsval :=
  let name := trim name in
  if name =? "" then VNull
  else match find (named name) ts with
       | Some t => js_of_tag t
       | None => js_of_tag (mkTag name (hsl (hash_from 0 name)))
       end.

(** One round of the loop of [init]: a predefined tag goes last when no
    tag has its name. *)
Definition restore_step (acc : list Tag) (nc : string * string) : list Tag :=
  match find (named (fst nc)) acc with
  | Some _ => acc
  | None => (acc ++ [mkTag (fst nc) (snd nc)])%list
  end.

(** The store [init] builds before it sorts. *)
Definition restored (ts : list Tag) : list Tag :=
  fold_left restore_step predefined ts.

(** The list [loadTags] returns. *)
Definition loaded (p : slot) : list Tag :=
  match p with
  | Kept (t :: ts) => sorted_copy tagCompare (t :: ts)
  | _ => sorted_copy tagCompare predefined_tags
  end.

(** The tag [importBackup] makes of an entry. *)
Definition tag_of_entry (e : TagEntry) : Tag :=
  match e with
  | BareName n => mkTag n (hsl (hash_from 0 n))
  | Named n (Some c) => mkTag n (if c =? "" then hsl (hash_from 0 n) else c)
  | Named n None => mkTag n (hsl (hash_from 0 n))
  end.

(** The book [saveForm] builds from a form. *)
Definition draft_book (f : form) : Book :=
  mkBook (trim (f_title f)) (trim (f_author f))
         (if f_year f =? "" then YearText ""
          else if is_nan (stringToNumber (f_year f)) then YearText (f_year f)
               else YearNumber (stringToNumber (f_year f)))
         (trim (f_link f))
         (sorted_copy localeCompare (dedupe (formTags f))).

(** [String(b.year)] *)
Definition year_text (y : Year) : string :=
  match y with
  | YearText s => s
  | YearNumber f => numberToString f
  end.



(** The callback of [applyFilters]. *)
Definition shown (f : filters) (b : Book) : bool :=
  let q := trim (toLowerCase (searchInput f)) in
  ((q =? "") || includes (toLowerCase (title b)) q
   || includes (toLowerCase (author b)) q
   || includes (join " " (map toLowerCase (book_tags b))) q)
  && ((authorFilter f =? "") || (author b =? authorFilter f))
  && ((yearFilter f =? "") || (year_text (year b) =? yearFilter f))
  && forallb (fun t => existsb (fun s => s =? t) (book_tags b)) (filterTags f).
End OnRecords.

(** ** The view of section 4.4 in the words of the specification *)

(** [q] occurs in [s]. *)
Definition within (q s : string) : Prop :=
  exists pre post, s = (pre ++ q ++ post)%string.

Section Visible.
Context {rt : Runtime}.
Variable f : filters.

(** The query as typed, without the blanks around it and without case. *)
Definition needle : string := toLowerCase (trim (searchInput f)).

Definition text_match (b : Book) : Prop :=
  needle = "" \/
  within needle (toLowerCase (title b)) \/
  within needle (toLowerCase (author b)) \/
  within needle (toLowerCase (join " " (book_tags b))).

Definition author_match (b : Book) : Prop :=
  authorFilter f = "" \/ author b = authorFilter f.

Definition year_match (b : Book) : Prop :=
  yearFilter f = "" \/ year_text (year b) = yearFilter f.

Definition tags_match (b : Book) : Prop :=
  forall t, In t (filterTags f) -> In t (book_tags b).

Definition visible (b : Book) : Prop :=
  text_match b /\ author_match b /\ year_match b /\ tags_match b.
End Visible.

(** ** The order of section 4.3 in the words of the specification *)

(** [a] is not after [b], code unit by code unit. *)
Definition str_le (a b : string) : Prop := String.compare a b <> Gt.


(** ** Tags in a store of any values *)




(** ** A runtime for closed examples

    Collation by code units; numbers written and read in decimal.
    [integerToString] is the engine's rendering on NaN, the infinities,
    the zeros and the integers below 2^53 in magnitude; [integerOfString]
    is the engine's reading of the empty string, of "Infinity" and of
    strings of at most fifteen digits.  The examples below stay within
    these. *)

Definition codeUnitCompare (a b : string) : Z :=
  match String.compare a b with
  | Lt => (-1)%Z
  | Eq => 0%Z
  | Gt => 1%Z
  end.

Definition integerToString (f : float) : string :=
  match FloatOps.Prim2SF f with
  | SpecFloat.S754_zero _ => "0"
  | SpecFloat.S754_infinity false => "Infinity"
  | SpecFloat.S754_infinity true => "-Infinity"
  | SpecFloat.S754_nan => "NaN"
  | SpecFloat.S754_finite s m e =>
      decimal ((if s then -1 else 1) * Z.shiftl (Zpos m) e)
  end.

Definition integerOfString (s : string) : float :=
  let t := trim s in
  if t =? "" then zero
  else if t =? "Infinity" then infinity
  else match NilEmpty.uint_of_string t with
       | Some d =>
           if (Z.of_uint d <? 10 ^ 15)%Z
           then of_uint63 (Uint63.of_Z (Z.of_uint d))
           else nan
       | None => nan
       end.

Definition sampleRuntime : Runtime :=
  {| localeCompare := codeUnitCompare;
     numberToString := integerToString;
     stringToNumber := integerOfString |}.

(** The state of a first visit: nothing stored, the script not yet run. *)
Definition blank : state := mkState [] [] None 1 None None.

(** The two books of the example of section 8. *)
Definition book_B : Book := mkBook "B" "A" (YearNumber 2001) "" [].
Definition book_A : Book := mkBook "A" "Z" (YearNumber 1999) "" [].

(** The predefined tags by code units. *)
Definition predefined_tags_sorted : list Tag :=
  [mkTag "Biology" "#8d6e21"; mkTag "Math" "#2f9e44"; mkTag "Physics" "#d9480f"].

(** ** The states the script reaches

    Within a visit that starts on empty storage, by the intents of
    section 6; a backup file either has no [tags] array or has one of names
    and of objects with a name, as the file format of section 6 says. *)

Inductive backup_file : option text -> Prop :=
| no_file : backup_file None
| not_json : backup_file (Some NotJson)
| with_tags fs es :
    get_own fs "tags" = VArr (map js_of_entry es) ->
    backup_file (Some (JsonText (VObj fs)))
| without_tags fs :
    (forall l, get_own fs "tags" <> VArr l) ->
    backup_file (Some (JsonText (VObj fs))).

Inductive reachable {rt : Runtime} : state -> Prop :=
| first_visit : reachable (snd (startup blank))
| after_addCustomTag n st :
    reachable st -> reachable (snd (ensureTagExists n st))
| after_saveForm f st :
    reachable st -> reachable (snd (saveForm f st))
| after_deleteFromForm idx confirmed st :
    reachable st -> reachable (snd (deleteFromForm idx confirmed st))
| after_deleteBook index confirmed st :
    reachable st -> reachable (snd (deleteBook index confirmed st))
| after_deleteTag n confirmed st :
    reachable st -> reachable (snd (deleteTag n confirmed st))
| after_sortBy key st :
    reachable st -> reachable (snd (sortBy key st))
| after_importBackup file st :
    backup_file file -> reachable st -> reachable (snd (importBackup file st)).

Definition coloured (t : Tag) : Prop := tag_color t <> "".

(** What every such state has: a direction of 1 or -1 and a store of
    coloured tags ascending by name. *)
Definition healthy {rt : Runtime} (st : state) : Prop :=
  (sortOrder st = 1 \/ sortOrder st = -1)%Z /\
  exists ts, tags st = map js_of_tag ts /\
             ascending tagCompare ts /\
             Forall coloured ts.

(** ** More of the script *)

(** The double quote. *)
Definition dquote : ascii := Eval cbv in ascii_of_N 34.

(** [s.replace(/c/g, r)] for one character [c] *)
Fixpoint replaceAll (c : ascii) (r : string) (s : string) : string :=
  match s with
  | EmptyString => EmptyString
  | String d s' =>
      if (d =? c)%char then (r ++ replaceAll c r s')%string
      else String d (replaceAll c r s')
  end.

(** [\w] *)
Definition is_word (c : ascii) : bool :=
  let n := N_of_ascii c in
  ((48 <=? n) && (n <=? 57) || (65 <=? n) && (n <=? 90)
   || (97 <=? n) && (n <=? 122) || (n =? 95))%N.

(** [s.replace(/[^\w]/g, "_")] *)
Fixpoint underscored (s : string) : string :=
  match s with
  | EmptyString => EmptyString
  | String c s' => String (if is_word c then c else "_"%char) (underscored s')
  end.

(** [SameValueZero], the equality of [Set]: primitives by value, NaN equal
    to itself; two objects are the same only when they are one object,
    which two values read from different books never are. *)
Definition sameValueZero (a b : jsval) : bool :=
  match a, b with
  | VUndef, VUndef | VNull, VNull => true
  | VBool x, VBool y => Bool.eqb x y
  | VNum x, VNum y => (x =? y)%float || (is_nan x && is_nan y)
  | VStr x, VStr y => x =? y
  | _, _ => false
  end.

(** [set.add(x)], the set in insertion order *)
Definition set_add (x : jsval) (s : list jsval) : list jsval :=
  if existsb (sameValueZero x) s then s else (s ++ [x])%list.

Section MoreScript.
Context {rt : Runtime}.

(** [loadBooks]: the parsed text of the slot, or the empty array when the
    slot is absent or empty or its text does not parse. *)
Definition loadBooks : M jsval :=
  fun s => match stored_books s with
           | Some (JsonText v) => (Ok v, s)
           | _ => (Ok (VArr []), s)
           end.

Definition escapeHtml (s : jsval) : result string :=
  match s with
  | VUndef | VNull => Ok ""
  | _ =>
      let? t := ToString s in
      Ok (replaceAll dquote "&quot;"
            (replaceAll ">" "&gt;"
               (replaceAll "<" "&lt;"
                  (replaceAll "&" "&amp;" t))))
  end.

Definition escapeId (s : jsval) : result string :=
  let? t := ToString s in Ok (underscored t).

(** The comparison of a [sort()] without argument: by the strings of the
    two values, code unit by code unit. *)
Definition defaultCompare (x y : jsval) : result Z :=
  let? xs := ToString x in
  let? ys := ToString y in
  Ok (if str_lt xs ys then (-1)%Z else if str_lt ys xs then 1%Z else 0%Z).

(** The [forEach] of [updateDropdowns] on one book: the two sets after
    it. *)
Definition collect (sets : list jsval * list jsval) (b : jsval)
  : result (list jsval * list jsval) :=
  let (authors, years) := sets in
  let? a := get b "author" in
  let authors := if truthy a then set_add a authors else authors in
  let? y := get b "year" in
  match y with
  | VUndef | VNull => Ok (authors, years)
  | _ =>
      if is_string y "" then Ok (authors, years)
      else let? ys := ToString y in Ok (authors, set_add (VStr ys) years)
  end.

Fixpoint collect_all (sets : list jsval * list jsval) (l : list jsval)
  : result (list jsval * list jsval) :=
  match l with
  | [] => Ok sets
  | b :: r => let? sets := collect sets b in collect_all sets r
  end.

(** [updateDropdowns]: the authors and the years of which it makes the
    options after "All Authors" and after "All Years", both selects being
    on the page. *)
Definition updateDropdowns : M (list jsval * list jsval) :=
  fun s =>
    (let? sets := collect_all ([], []) (books s) in
     let? authors := Array_sort defaultCompare (fst sets) in
     let? years := Array_sort defaultCompare (snd sets) in
     Ok (authors, years), s).

(** [books.filter(b => (b.tags || []).includes(name)).length], the count
    of [deleteTag] and, for a name that is a string, of
    [renderTagControls]. *)
Definition countByTag (name : string) (l : list jsval) : result nat :=
  let? used := filterM (fun b => let? tg := get b "tags" in
                                 includes_of (or_else tg (VArr [])) name) l in
  Ok (List.length used).

(** [addCustomTagFromInput]: [val] is the text of the input. *)
Definition addCustomTagFromInput (val : string) : M unit :=
  let val := trim val in
  if val =? "" then ret tt
  else t <- ensureTagExists val ;; ret tt.
End MoreScript.

(** ** More of the script on the records *)

(** What [escapeHtml] writes for one character. *)
Definition entity (c : ascii) : string :=
  if (c =? "&")%char then "&amp;"
  else if (c =? "<")%char then "&lt;"
  else if (c =? ">")%char then "&gt;"
  else if (c =? dquote)%char then "&quot;"
  else String c EmptyString.

Fixpoint escaped (s : string) : string :=
  match s with
  | EmptyString => EmptyString
  | String c s' => (entity c ++ escaped s')%string
  end.

(** The characters that open and close markup and attribute values. *)
Definition markup (c : ascii) : bool :=
  ((c =? "<") || (c =? ">") || (c =? dquote))%char.

(** The book has a year for the list of years: [b.year !== ""]. *)
Definition has_year (b : Book) : bool :=
  match year b with
  | YearText s => negb (s =? "")
  | YearNumber _ => true
  end.

(** [a] is before [b], code unit by code unit. *)
Definition str_before (a b : string) : Prop := String.compare a b = Lt.

(** A book without the tag [n]. *)
Definition untagged (n : string) (b : Book) : Book :=
  mkBook (title b) (author b) (year b) (link b)
         (filter (fun t => negb (t =? n)) (book_tags b)).

(** The book carries the tag [n]. *)
Definition tagged (n : string) (b : Book) : bool :=
  existsb (fun t => t =? n) (book_tags b).

(** The year of a book is a value JSON carries unchanged. *)
Definition plain_year (b : Book) : Prop :=
  match year b with
  | YearText _ => True
  | YearNumber f => is_finite f = true /\ (is_zero f = true -> f = zero)
  end.

(** The predefined tags no tag of [ts] is named after. *)
Definition missing_predefined (ts : list Tag) : list Tag :=
  filter (fun p => negb (existsb (fun t => tag_name t =? tag_name p) ts)) predefined_tags.

(** The slot of the tags holds what [saveTags] would write of the store. *)
Definition tags_saved (st : state) : Prop :=
  stored_tags st = Some (JSON_stringify (VArr (tags st))).

(** The top level of the script with the books: [books = loadBooks()],
    then what [startup] does.  A slot of the books whose value is not an
    array would leave [books] that value, which the state here does not
    hold: no result. *)
Definition visit {rt : Runtime} (s : state) : option (result unit * state) :=
  match fst (loadBooks s) with
  | Ok (VArr l) => Some (startup (set_books l s))
  | _ => None
  end.

(** * Properties *)

Open Scope list_scope.

(** ** Sorting *)

Section SortFacts.
Context {A : Type}.


Lemma fold_insert_Throw (cmp : A -> A -> result Z) l e :
  fold_left (fun acc x => let? a := acc in insert cmp x a) l (Throw e) = Throw e.
Proof. induction l; simpl; auto. Qed.



Lemma Array_sort_snoc (cmp : A -> A -> result Z) l x :
  Array_sort cmp (l ++ [x]) = let? a := Array_sort cmp l in insert cmp x a.
Proof. unfold Array_sort. rewrite fold_left_app. reflexivity. Qed.

Lemma sorted_copy_snoc (c : A -> A -> Z) l x :
  sorted_copy c (l ++ [x]) = place c x (sorted_copy c l).
Proof. unfold sorted_copy. rewrite fold_left_app. reflexivity. Qed.

Lemma place_Permutation (c : A -> A -> Z) x l : Permutation (x :: l) (place c x l).
Proof.
  induction l as [|y r IH]; simpl.
  - apply Permutation_refl.
  - destruct (c x y <? 0)%Z.
    + apply Permutation_refl.
    + eapply Permutation_trans; [apply perm_swap|]. apply perm_skip, IH.
Qed.

Lemma sorted_copy_Permutation (c : A -> A -> Z) l : Permutation l (sorted_copy c l).
Proof.
  induction l as [|x l IH] using rev_ind.
  - apply Permutation_refl.
  - rewrite sorted_copy_snoc.
    eapply Permutation_trans; [apply Permutation_sym, Permutation_cons_append|].
    eapply Permutation_trans; [|apply place_Permutation].
    apply perm_skip, IH.
Qed.

Section Consistent.
Variable c : A -> A -> Z.
Hypothesis c_sign : forall a b, Z.sgn (c a b) = (- Z.sgn (c b a))%Z.
Hypothesis c_trans : forall a b d, (c a b <= 0 -> c b d <= 0 -> c a d <= 0)%Z.

Lemma not_before_after a b : (c a b <? 0)%Z = false -> (c b a <= 0)%Z.
Proof.
  intros H. apply Z.ltb_ge in H. pose proof (c_sign a b) as S.
  destruct (Z.sgn_spec (c a b)) as [[? E]|[[? E]|[? E]]];
  destruct (Z.sgn_spec (c b a)) as [[? E']|[[? E']|[? E']]]; lia.
Qed.

Lemma after_not_before a b : (c a b <= 0)%Z -> (c b a <? 0)%Z = false.
Proof.
  intros H. apply Z.ltb_ge. pose proof (c_sign a b) as S.
  destruct (Z.sgn_spec (c a b)) as [[? E]|[[? E]|[? E]]];
  destruct (Z.sgn_spec (c b a)) as [[? E']|[[? E']|[? E']]]; lia.
Qed.

Lemma place_ascending x l : ascending c l -> ascending c (place c x l).
Proof.
  unfold ascending. induction l as [|y r IH]; simpl; intros S.
  - constructor; constructor.
  - apply StronglySorted_inv in S. destruct S as [Sr Fy].
    destruct (c x y <? 0)%Z eqn:E.
    + constructor.
      * constructor; assumption.
      * apply Z.ltb_lt in E. constructor; [lia|].
        rewrite Forall_forall in *. intros z Hz.
        apply c_trans with y; [lia|auto].
    + constructor.
      * apply IH, Sr.
      * rewrite Forall_forall in *. intros z Hz.
        apply (Permutation_in _ (Permutation_sym (place_Permutation c x r))) in Hz.
        destruct Hz as [<-|Hz]; [apply not_before_after, E|auto].
Qed.

Lemma sorted_copy_ascending l : ascending c (sorted_copy c l).
Proof.
  induction l as [|x l IH] using rev_ind.
  - constructor.
  - rewrite sorted_copy_snoc. apply place_ascending, IH.
Qed.

Lemma place_last x l :
  Forall (fun y => (c y x <= 0)%Z) l -> place c x l = l ++ [x].
Proof.
  induction l as [|y r IH]; simpl; intros F.
  - reflexivity.
  - inversion F; subst. rewrite after_not_before by assumption.
    rewrite IH by assumption. reflexivity.
Qed.

Lemma ascending_snoc_inv l x :
  ascending c (l ++ [x]) -> ascending c l /\ Forall (fun y => (c y x <= 0)%Z) l.
Proof.
  unfold ascending. induction l as [|y r IH]; simpl; intros S.
  - split; constructor.
  - apply StronglySorted_inv in S. destruct S as [Sr Fy].
    destruct (IH Sr) as [S' F']. split.
    + constructor; [assumption|]. apply Forall_app in Fy. tauto.
    + constructor; [|assumption]. apply Forall_app in Fy.
      destruct Fy as [_ Fx]. inversion Fx; assumption.
Qed.

(** Sorting an ascending array changes nothing. *)
Lemma sorted_copy_fixed l : ascending c l -> sorted_copy c l = l.
Proof.
  induction l as [|x l IH] using rev_ind; intros S.
  - reflexivity.
  - apply ascending_snoc_inv in S. destruct S as [S F].
    rewrite sorted_copy_snoc, IH by assumption. apply place_last, F.
Qed.
End Consistent.
End SortFacts.

(** A comparison that answers on every pair: the sort cannot raise and
    is the pure one, also through a change of representation. *)
Lemma insert_map {A B} (f : B -> A) (cmp : A -> A -> result Z) (c : B -> B -> Z) :
  (forall a b, cmp (f a) (f b) = Ok (c a b)) ->
  forall x l, insert cmp (f x) (map f l) = Ok (map f (place c x l)).
Proof.
  intros H x l. induction l as [|y r IH]; simpl.
  - reflexivity.
  - rewrite H. simpl. destruct (c x y <? 0)%Z.
    + reflexivity.
    + rewrite IH. reflexivity.
Qed.

Lemma Array_sort_map {A B} (f : B -> A) (cmp : A -> A -> result Z) (c : B -> B -> Z) :
  (forall a b, cmp (f a) (f b) = Ok (c a b)) ->
  forall l, Array_sort cmp (map f l) = Ok (map f (sorted_copy c l)).
Proof.
  intros H l. induction l as [|x l IH] using rev_ind.
  - reflexivity.
  - rewrite sorted_copy_snoc, map_app. cbn [map].
    rewrite Array_sort_snoc, IH. cbn [rbind]. apply insert_map, H.
Qed.


(** ** Typed tag stores *)

(** Unfolding the plumbing of a computation. *)
Ltac plumb :=
  repeat (progress (
    unfold bind, ret, lift, read, write, saveTags, saveBooks, set_tags, set_books,
      set_sort, set_stored_books, set_stored_tags;
    cbn [books tags lastSortKey sortOrder stored_books stored_tags rbind fst snd])).

Section TagFacts.
Context {rt : Runtime}.

Lemma byName_tag a b : byName (js_of_tag a) (js_of_tag b) = Ok (tagCompare a b).
Proof. reflexivity. Qed.

Lemma byNameStrict_tag a b :
  byNameStrict (js_of_tag a) (js_of_tag b) = Ok (tagCompare a b).
Proof. reflexivity. Qed.

Lemma find_by_name_tags ts n :
  find_by_name (map js_of_tag ts) n =
  Ok (match find (named n) ts with
      | Some t => js_of_tag t
      | None => VUndef
      end).
Proof.
  induction ts as [|t ts IH]; simpl.
  - reflexivity.
  - unfold named at 1. destruct (tag_name t =? n); [reflexivity|exact IH].
Qed.

Lemma sortTags_tags ts b k o sb sg :
  sortTags byName (mkState b (map js_of_tag ts) k o sb sg) =
  (Ok tt, mkState b (map js_of_tag (sorted_copy tagCompare ts)) k o sb sg).
Proof.
  unfold sortTags. simpl.
  rewrite (Array_sort_map js_of_tag byName tagCompare byName_tag). reflexivity.
Qed.

Lemma json_value_tag t : json_value (js_of_tag t) = js_of_tag t.
Proof. reflexivity. Qed.

Lemma json_value_tags ts : map json_value (map js_of_tag ts) = map js_of_tag ts.
Proof. rewrite map_map. apply map_ext. intros; apply json_value_tag. Qed.

Lemma ensureTagExists_tags name ts b k o sb sg :
  exists sg',
    ensureTagExists name (mkState b (map js_of_tag ts) k o sb sg) =
    (Ok (ensured_tag name ts),
     mkState b (map js_of_tag (ensured name ts)) k o sb sg') /\
    (sg' = sg \/
     sg' = Some (JsonText (VArr (map js_of_tag
             (sorted_copy tagCompare
                (ts ++ [mkTag (trim name) (hsl (hash_from 0 (trim name)))])))))).
Proof.
  unfold ensureTagExists, ensured, ensured_tag.
  destruct (trim name =? "") eqn:E.
  - eexists; split; [reflexivity|auto].
  - unfold bind, findTagByName. cbn [tags].
    rewrite find_by_name_tags.
    destruct (find (named (trim name)) ts) as [t|] eqn:F.
    + cbn. eexists; split; [reflexivity|auto].
    + cbn [truthy negb colorForTagName]. plumb.
      change (map js_of_tag ts ++ [tag_object (VStr (trim name)) (VStr (hsl (hash_from 0 (trim name))))])
        with (map js_of_tag ts ++ map js_of_tag [mkTag (trim name) (hsl (hash_from 0 (trim name)))]).
      rewrite <- map_app. rewrite sortTags_tags. plumb.
      unfold renderTagControls. rewrite sortTags_tags.
      eexists; split; [reflexivity|].
      right. unfold JSON_stringify. cbn [json_value].
      fold (map json_value). rewrite json_value_tags.
      reflexivity.
Qed.
End TagFacts.

(** ** Looking a tag up by name *)






(** ** ensureTagExists *)

Section EnsureTwice.
Context {rt : Runtime}.





End EnsureTwice.


(** ** Saving and deleting books *)

Section FormFacts.
Context {rt : Runtime}.

Lemma sort_strings l :
  Array_sort (fun a b => Ok (localeCompare a b)) l = Ok (sorted_copy localeCompare l).
Proof.
  pose proof (Array_sort_map (fun x : string => x)
                (fun a b => Ok (localeCompare a b)) localeCompare
                (fun a b => eq_refl) l) as H.
  rewrite !map_id in H. exact H.
Qed.

End FormFacts.

Lemma importBackup_not_json (rt : Runtime) (st : state) :
  importBackup (Some NotJson) st = (Ok (Alert "Invalid JSON file."), st).
Proof.
  unfold importBackup, try_catch.
  (* the parser raises at the first step of the guarded block *)
  unfold bind at 1. unfold lift at 1. cbn [JSON_parse].
  reflexivity.
Qed.

(** C4.  A file whose text is not JSON: [importBackup] answers with the
    alert "Invalid JSON file." and the whole state, the book list, the tag
    store and both stored texts, is the one it started from. *)
Theorem importBackup_not_json_keeps_state (rt : Runtime) (st : state) :
  fst (importBackup (Some NotJson) st) = Ok (Alert "Invalid JSON file.") /\
  snd (importBackup (Some NotJson) st) = st.
Proof.
  rewrite importBackup_not_json. split; reflexivity.
Qed.

(** C9.  A form whose title or author trims to nothing: [saveForm] answers
    with the alert asking for both and the state, book list and tag store
    included, is unchanged. *)
Theorem saveForm_rejects_blank (rt : Runtime) (f : form) (st : state) :
  trim (f_title f) = "" \/ trim (f_author f) = "" ->
  saveForm f st = (Ok (Alert "Please provide at least Title and Author."), st).
Proof.
  intros H. unfold saveForm.
  assert (E : ((trim (f_title f) =? "") || (trim (f_author f) =? "")) = true).
  { apply orb_true_iff. destruct H as [H|H]; [left|right]; apply String.eqb_eq, H. }
  rewrite E. reflexivity.
Qed.

(** The draft [{title:"", author:"X"}] offered to a freshly started
    catalogue. *)
Lemma saveForm_rejects_blank_witness :
  @saveForm sampleRuntime (mkForm (Some (-1)%Z) "" "X" "" "" [])
            (snd (@startup sampleRuntime blank)) =
  (Ok (Alert "Please provide at least Title and Author."),
   snd (@startup sampleRuntime blank)).
Proof.
  apply (saveForm_rejects_blank sampleRuntime (mkForm (Some (-1)%Z) "" "X" "" "" [])).
  left. reflexivity.
Defined.

(** C3.  [deleteBook(-1)], confirmed, on a list of two books removes the
    last one, where [deleteFromForm] with the same index leaves the list
    alone. *)
Theorem deleteBook_negative_index_removes :
  let st := mkState [js_of_book book_B; js_of_book book_A] [] None 1 None None in
  books (snd (@deleteBook sampleRuntime (-1) true st)) = [js_of_book book_B] /\
  @deleteFromForm sampleRuntime (Some (-1)%Z) true st = (Ok tt, st).
Proof. split; reflexivity. Qed.

(** An index at or past the end removes nothing. *)
Lemma splice1_past_end {A} (xs : list A) (index : Z) :
  (Z.of_nat (List.length xs) <= index)%Z -> splice1 xs index = xs.
Proof.
  intros H. unfold splice1.
  assert (E : (index <? 0)%Z = false) by (apply Z.ltb_ge; lia).
  rewrite E. rewrite Z.min_r by lia. rewrite Nat2Z.id.
  induction xs as [|x xs IH]; simpl; [reflexivity|].
  f_equal. apply IH. simpl in H. lia.
Qed.

Lemma deleteBook_past_end (rt : Runtime) (index : Z) (st : state) :
  (Z.of_nat (List.length (books st)) <= index)%Z ->
  books (snd (deleteBook index true st)) = books st.
Proof.
  intros H. unfold deleteBook. cbn [negb]. plumb.
  rewrite (splice1_past_end _ _ H).
  unfold renderAll, renderTagControls, sortTags. cbn [tags].
  destruct (Array_sort byName (tags st)); reflexivity.
Qed.

Lemma remove_at_length {A} (xs : list A) (i : nat) :
  (i < List.length xs)%nat -> S (List.length (remove_at xs i)) = List.length xs.
Proof.
  revert i. induction xs as [|x xs IH]; intros [|i] H; simpl in *; try lia.
  rewrite IH by lia. reflexivity.
Qed.

(** A negative index always removes a book when there is one. *)
Lemma deleteBook_negative (rt : Runtime) (index : Z) (st : state) :
  (index < 0)%Z -> books st <> [] ->
  S (List.length (books (snd (deleteBook index true st)))) = List.length (books st).
Proof.
  intros H N. unfold deleteBook. cbn [negb]. plumb.
  assert (L : S (List.length (splice1 (books st) index)) = List.length (books st)).
  { unfold splice1. apply Z.ltb_lt in H. rewrite H. apply remove_at_length.
    destruct (books st) as [|b l]; [contradiction|]. cbn [List.length]. lia. }
  unfold renderAll, renderTagControls, sortTags. cbn [tags].
  destruct (Array_sort byName (tags st)); exact L.
Qed.




(** ** Strings *)

Lemma prefix_within q s :
  prefix q s = true <-> exists post, s = (q ++ post)%string.
Proof.
  revert s. induction q as [|c q IH]; intros s.
  - split; [intros _; exists s; reflexivity|]. intros _. destruct s; reflexivity.
  - destruct s as [|d s]; simpl.
    + split; [discriminate|intros [post H]; discriminate].
    + destruct (ascii_dec c d) as [->|N].
      * rewrite IH. split; intros [post H]; exists post.
        -- rewrite H. reflexivity.
        -- inversion H. reflexivity.
      * split; [discriminate|]. intros [post H]. inversion H. congruence.
Qed.

Lemma includes_within s q : includes s q = true <-> within q s.
Proof.
  unfold within. induction s as [|c s IH]; cbn [includes].
  - rewrite orb_false_r, prefix_within. split.
    + intros [post H]. exists "", post. exact H.
    + intros [pre [post H]]. destruct pre; simpl in H.
      * exists post. exact H.
      * discriminate.
  - rewrite orb_true_iff, IH, prefix_within. split.
    + intros [[post H]|[pre [post H]]].
      * exists "", post. exact H.
      * exists (String c pre), post. simpl. rewrite H. reflexivity.
    + intros [pre [post H]]. destruct pre as [|d pre]; simpl in H.
      * left. exists post. exact H.
      * right. inversion H. exists pre, post. reflexivity.
Qed.

Lemma toLowerCase_app a b :
  toLowerCase (a ++ b) = (toLowerCase a ++ toLowerCase b)%string.
Proof. induction a; simpl; [reflexivity|rewrite IHa; reflexivity]. Qed.

Lemma toLowerCase_join l :
  toLowerCase (join " " l) = join " " (map toLowerCase l).
Proof.
  unfold join. induction l as [|x [|y l] IH]; simpl in *.
  - reflexivity.
  - reflexivity.
  - rewrite toLowerCase_app. simpl. rewrite IH. reflexivity.
Qed.

Lemma is_space_lower c : is_space (lower_char c) = is_space c.
Proof. destruct c as [[] [] [] [] [] [] [] []]; reflexivity. Qed.

Lemma trimStart_lower s : trimStart (toLowerCase s) = toLowerCase (trimStart s).
Proof.
  induction s as [|c s IH]; simpl; [reflexivity|].
  rewrite is_space_lower. destruct (is_space c); [exact IH|reflexivity].
Qed.

Lemma trimEnd_lower s : trimEnd (toLowerCase s) = toLowerCase (trimEnd s).
Proof.
  induction s as [|c s IH]; simpl; [reflexivity|].
  rewrite IH, is_space_lower.
  destruct (trimEnd s); simpl; [destruct (is_space c)|]; reflexivity.
Qed.

Lemma trim_lower s : trim (toLowerCase s) = toLowerCase (trim s).
Proof. unfold trim. rewrite trimStart_lower, trimEnd_lower. reflexivity. Qed.

(** ** applyFilters *)

Lemma filterM_map {A B} (g : B -> A) (p : A -> result bool) (k : B -> bool) :
  (forall x, p (g x) = Ok (k x)) ->
  forall l, filterM p (map g l) = Ok (map g (filter k l)).
Proof.
  intros H l. induction l as [|x l IH]; simpl.
  - reflexivity.
  - rewrite H, IH. simpl. destruct (k x); reflexivity.
Qed.

Lemma mapM_map {A B C} (g : C -> A) (p : A -> result B) (k : C -> B) :
  (forall x, p (g x) = Ok (k x)) ->
  forall l, mapM p (map g l) = Ok (map k l).
Proof.
  intros H l. induction l as [|x l IH]; simpl.
  - reflexivity.
  - rewrite H, IH. reflexivity.
Qed.

Lemma everyM_pure {A} (p : A -> result bool) (k : A -> bool) :
  (forall x, p x = Ok (k x)) ->
  forall l, everyM p l = Ok (forallb k l).
Proof.
  intros H l. induction l as [|x l IH]; simpl.
  - reflexivity.
  - rewrite H. simpl. destruct (k x); [exact IH|reflexivity].
Qed.

Lemma existsb_is_string l t :
  existsb (fun e => is_string e t) (map VStr l) = existsb (fun s => s =? t) l.
Proof. induction l; simpl; [reflexivity|rewrite IHl; reflexivity]. Qed.

Section FilterFacts.
Context {rt : Runtime}.

Lemma or_else_string s : toString (or_else (VStr s) (VStr "")) = Ok s.
Proof.
  unfold or_else. simpl. destruct (s =? "") eqn:E; simpl; [|reflexivity].
  apply String.eqb_eq in E. rewrite E. reflexivity.
Qed.

Lemma ToString_year y : ToString (js_of_year y) = Ok (year_text y).
Proof. destruct y; reflexivity. Qed.

Lemma matches_book f b : matches f (js_of_book b) = Ok (shown f b).
Proof.
  unfold matches, shown. cbn [js_of_book get get_own String.eqb Ascii.eqb Bool.eqb rbind].
  rewrite !or_else_string. cbn [rbind].
  unfold or_else at 1. cbn [truthy lower_tags].
  rewrite (mapM_map VStr _ toLowerCase) by reflexivity. cbn [rbind].
  assert (Y : (if yearFilter f =? "" then Ok true
               else let? ys := ToString (js_of_year (year b)) in
                    Ok (ys =? yearFilter f)) =
              Ok ((yearFilter f =? "") || (year_text (year b) =? yearFilter f))).
  { destruct (yearFilter f =? ""); [reflexivity|]. cbn [rbind orb].
    rewrite ToString_year. reflexivity. }
  rewrite Y. cbn [rbind]. clear Y.
  assert (T : (if (List.length (filterTags f) =? 0)%nat then Ok true
               else everyM (fun t => includes_of (or_else (VArr (map VStr (book_tags b))) (VArr [])) t)
                           (filterTags f)) =
              Ok (forallb (fun t => existsb (fun s => s =? t) (book_tags b)) (filterTags f))).
  { destruct (filterTags f) as [|t ts] eqn:E; [reflexivity|].
    cbn [List.length Nat.eqb]. apply everyM_pure. intros x.
    unfold or_else. cbn [truthy includes_of]. rewrite existsb_is_string. reflexivity. }
  rewrite T. cbn [rbind is_string]. reflexivity.
Qed.

Lemma shown_visible f b : shown f b = true <-> visible f b.
Proof.
  unfold shown, visible, text_match, author_match, year_match, tags_match, needle.
  rewrite !andb_true_iff, !orb_true_iff, !String.eqb_eq, !includes_within.
  rewrite trim_lower, toLowerCase_join, forallb_forall.
  split.
  - intros [[[T A] Y] G]. repeat split; try tauto.
    intros t Ht. specialize (G t Ht). apply existsb_exists in G.
    destruct G as [s [Hs E]]. apply String.eqb_eq in E. subst. exact Hs.
  - intros [T [A [Y G]]]. repeat split; try tauto.
    intros t Ht. apply existsb_exists. exists t. split; [auto|apply String.eqb_refl].
Qed.
End FilterFacts.

(** C6.  Over any list of books of the data model and any filter state,
    [applyFilters] completes, leaves the state as it is and hands the view
    the books that pass a test, in the order of the list; a book passes the
    test exactly when it is visible: the trimmed query occurs, case aside,
    in its title, its author or its tag names joined by single blanks (or
    is empty), its author is the selected one (or none is selected), its
    year written as a string is the selected one (or none is selected), and
    every selected tag is among its tags. *)
Theorem applyFilters_visible (rt : Runtime) (f : filters) (bs : list Book)
        (st : state) :
  exists keep : Book -> bool,
    (forall b, keep b = true <-> visible f b) /\
    applyFilters f (set_books (map js_of_book bs) st) =
    (Ok (map js_of_book (filter keep bs)), set_books (map js_of_book bs) st).
Proof.
  exists (shown f). split.
  - intros b. apply shown_visible.
  - unfold applyFilters. cbn [books set_books].
    rewrite (filterM_map js_of_book (matches f) (shown f) (matches_book f)).
    reflexivity.
Qed.

(** ** The order of strings *)

Lemma str_le_trans a b c : str_le a b -> str_le b c -> str_le a c.
Proof.
  unfold str_le. revert b c.
  induction a as [|x a IH]; intros [|y b] [|z c]; simpl; try congruence.
  unfold Ascii.compare.
  destruct (N.compare_spec (N_of_ascii x) (N_of_ascii y)) as [E1|L1|G1];
  destruct (N.compare_spec (N_of_ascii y) (N_of_ascii z)) as [E2|L2|G2];
  destruct (N.compare_spec (N_of_ascii x) (N_of_ascii z)) as [E3|L3|G3];
  try congruence; try lia.
  apply IH.
Qed.

(** ** sortBy *)


Section SortByFacts.
Context {rt : Runtime}.







End SortByFacts.


(** ** init, loadTags, deleteTag and importBackup on a typed store *)

Section StoreFacts.
Context {rt : Runtime}.

Lemma forEach_restore pre : forall ts b k o sb sg,
  forEach (fun pt =>
             found <- findTagByName (fst pt) ;;
             if negb (truthy found)
             then write (fun s => set_tags (tags s ++ [tag_object (VStr (fst pt)) (VStr (snd pt))]) s)
             else ret tt) pre
          (mkState b (map js_of_tag ts) k o sb sg) =
  (Ok tt,
   mkState b (map js_of_tag (fold_left restore_step pre ts)) k o sb sg).
Proof.
  induction pre as [|nc pre IH]; intros ts b k o sb sg.
  - reflexivity.
  - cbn [forEach fold_left]. unfold restore_step at 2.
    unfold bind at 1 2, findTagByName. cbn [tags].
    rewrite find_by_name_tags.
    destruct (find (named (fst nc)) ts) as [t|] eqn:F.
    + cbn [js_of_tag tag_object truthy negb]. unfold ret at 1. apply IH.
    + cbn [truthy negb]. plumb.
      change (map js_of_tag ts ++ [tag_object (VStr (fst nc)) (VStr (snd nc))])
        with (map js_of_tag ts ++ map js_of_tag [mkTag (fst nc) (snd nc)]).
      rewrite <- map_app. apply IH.
Qed.

Lemma init_tags ts b k o sb sg :
  init (mkState b (map js_of_tag ts) k o sb sg) =
  (Ok tt,
   mkState b (map js_of_tag (sorted_copy tagCompare (sorted_copy tagCompare (restored ts))))
           k o sb
           (Some (JsonText (VArr (map js_of_tag (sorted_copy tagCompare (restored ts))))))).
Proof.
  unfold init. unfold bind at 1. rewrite forEach_restore. fold (restored ts).
  unfold bind at 1. rewrite sortTags_tags. plumb.
  unfold renderAll, renderTagControls. rewrite sortTags_tags.
  unfold JSON_stringify. cbn [json_value]. fold (map json_value).
  rewrite json_value_tags. reflexivity.
Qed.

Lemma base_tags_tags :
  base_tags = Ok (map js_of_tag (sorted_copy tagCompare predefined_tags)).
Proof.
  unfold base_tags.
  change PREDEFINED_TAGS with (map js_of_tag predefined_tags).
  apply (Array_sort_map js_of_tag byNameStrict tagCompare byNameStrict_tag).
Qed.

Lemma loadTags_slot p b tg k o sb :
  exists sg',
    loadTags (mkState b tg k o sb (text_of_slot p)) =
    (Ok (map js_of_tag (loaded p)), mkState b tg k o sb sg').
Proof.
  unfold loadTags. cbn [stored_tags]. rewrite base_tags_tags.
  destruct p as [| |[|t ts]]; cbn [text_of_slot map loaded];
    try (eexists; reflexivity).
  change (js_of_tag t :: map js_of_tag ts) with (map js_of_tag (t :: ts)).
  rewrite (Array_sort_map js_of_tag byName tagCompare byName_tag).
  eexists; reflexivity.
Qed.

Lemma importTag_entry e : importTag (js_of_entry e) = Ok (js_of_tag (tag_of_entry e)).
Proof.
  destruct e as [n|n [c|]]; cbn; try reflexivity.
  destruct (c =? ""); reflexivity.
Qed.


(** The import of a parsed object whose [tags] is an array that [map]
    turns into tags. *)
Lemma importBackup_tags fs l ts st :
  get_own fs "tags" = VArr l ->
  mapM importTag l = Ok (map js_of_tag ts) ->
  let bs := match get_own fs "books" with
            | VArr l' => l'
            | _ => books st
            end in
  let once := sorted_copy tagCompare ts in
  importBackup (Some (JsonText (VObj fs))) st =
  (Ok (Alert "Import successful."),
   mkState bs (map js_of_tag (sorted_copy tagCompare once))
           (lastSortKey st) (sortOrder st)
           (Some (JSON_stringify (VArr bs)))
           (Some (JsonText (VArr (map js_of_tag once))))).
Proof.
  intros G Mp. cbv zeta. destruct st as [b tg k o sb sg].
  unfold importBackup, try_catch. plumb. cbn [JSON_parse get].
  destruct (get_own fs "books") as [| | | | |l'|]; plumb; rewrite G; plumb;
    rewrite Mp; plumb;
    rewrite (Array_sort_map js_of_tag byNameStrict tagCompare byNameStrict_tag); plumb;
    unfold renderAll, renderTagControls; rewrite sortTags_tags;
    unfold JSON_stringify; cbn [json_value]; fold (map json_value);
    rewrite json_value_tags; reflexivity.
Qed.
End StoreFacts.

(** ** Order and names of a typed store *)

Lemma StronglySorted_filter {A} (R : A -> A -> Prop) (p : A -> bool) l :
  StronglySorted R l -> StronglySorted R (filter p l).
Proof.
  intros S. induction S as [|a l S IH F]; simpl.
  - constructor.
  - destruct (p a); [|exact IH]. constructor; [exact IH|].
    rewrite Forall_forall in *. intros x Hx. apply filter_In in Hx. apply F, Hx.
Qed.



Section StoreOrder.
Context {rt : Runtime} {C : Collation rt}.

Lemma tagCompare_sign a b : Z.sgn (tagCompare a b) = (- Z.sgn (tagCompare b a))%Z.
Proof. apply collation_sign. Qed.

Lemma tagCompare_trans a b d :
  (tagCompare a b <= 0 -> tagCompare b d <= 0 -> tagCompare a d <= 0)%Z.
Proof. apply collation_trans. Qed.

Lemma sorted_tags_ascending ts : ascending tagCompare (sorted_copy tagCompare ts).
Proof. exact (sorted_copy_ascending tagCompare tagCompare_sign tagCompare_trans ts). Qed.

Lemma sorted_tags_fixed ts :
  ascending tagCompare ts -> sorted_copy tagCompare ts = ts.
Proof. exact (sorted_copy_fixed tagCompare tagCompare_sign ts). Qed.

Lemma sorted_twice ts :
  sorted_copy tagCompare (sorted_copy tagCompare ts) = sorted_copy tagCompare ts.
Proof. apply sorted_tags_fixed, sorted_tags_ascending. Qed.

Lemma NoDup_names_sorted ts :
  NoDup (map tag_name ts) -> NoDup (map tag_name (sorted_copy tagCompare ts)).
Proof.
  intros N. eapply Permutation_NoDup; [|exact N].
  apply Permutation_map, sorted_copy_Permutation.
Qed.

Lemma NoDup_names_push ts n c :
  find (named n) ts = None -> NoDup (map tag_name ts) ->
  NoDup (map tag_name (ts ++ [mkTag n c])).
Proof.
  intros F N. rewrite map_app. simpl.
  apply (Permutation_NoDup (Permutation_cons_append _ _)).
  constructor; [|exact N]. intros Hin. apply in_map_iff in Hin.
  destruct Hin as [t [E Ht]].
  apply (find_none _ _ F) in Ht. unfold named in Ht.
  rewrite E, String.eqb_refl in Ht. discriminate.
Qed.

Lemma ensured_ordered n ts :
  ascending tagCompare ts ->
  ascending tagCompare (ensured n ts) /\
  (NoDup (map tag_name ts) -> NoDup (map tag_name (ensured n ts))).
Proof.
  intros S. unfold ensured. destruct (trim n =? ""); [tauto|].
  destruct (find (named (trim n)) ts) eqn:F; [tauto|]. split.
  - apply sorted_tags_ascending.
  - intros N. apply NoDup_names_sorted, NoDup_names_sorted, NoDup_names_push; assumption.
Qed.

End StoreOrder.

Section DeleteTagFacts.
Context {rt : Runtime}.

Lemma filter_tags_named n ts :
  filterM (fun t => let? m := get t "name" in Ok (negb (is_string m n)))
          (map js_of_tag ts) =
  Ok (map js_of_tag (filter (fun t => negb (named n t)) ts)).
Proof. apply filterM_map. intros t. reflexivity. Qed.

(** Whatever the books hold and however the call ends, [deleteTag] over
    a typed store either leaves the store and its stored text alone or
    leaves the store without the tags of that name, sorted, and that list
    in storage. *)
Lemma deleteTag_store n c ts b k o sb sg :
  let rest := filter (fun t => negb (named n t)) ts in
  exists r st',
    deleteTag n c (mkState b (map js_of_tag ts) k o sb sg) = (r, st') /\
    ((tags st' = map js_of_tag ts /\ stored_tags st' = sg) \/
     (tags st' = map js_of_tag (sorted_copy tagCompare rest) /\
      stored_tags st' = text_of_slot (Kept rest))).
Proof.
  cbv zeta. unfold deleteTag, bind at 1, findTagByName. cbn [tags].
  rewrite find_by_name_tags.
  destruct (find (named n) ts) as [t|];
    [|do 2 eexists; split; [reflexivity|left; split; reflexivity]].
  cbn [js_of_tag tag_object truthy negb]. unfold bind at 1. cbn [books].
  destruct (filterM _ b) as [used|e];
    [|do 2 eexists; split; [reflexivity|left; split; reflexivity]].
  destruct c; cbn [negb];
    [|do 2 eexists; split; [reflexivity|left; split; reflexivity]].
  unfold bind at 1. cbn [books].
  destruct (strip_books n b) as [l [[]|e]];
    [|do 2 eexists; split; [reflexivity|left; split; reflexivity]].
  plumb. rewrite filter_tags_named. plumb.
  unfold renderAll, renderTagControls. rewrite sortTags_tags.
  do 2 eexists; split; [reflexivity|]. cbn [tags stored_tags].
  right. split; [reflexivity|].
  unfold JSON_stringify, text_of_slot. cbn [json_value]. fold (map json_value).
  rewrite json_value_tags. reflexivity.
Qed.
End DeleteTagFacts.

(** ** The runtime of the examples collates consistently *)

Lemma codeUnitCompare_le a b : (codeUnitCompare a b <= 0)%Z <-> str_le a b.
Proof.
  unfold codeUnitCompare, str_le. destruct (String.compare a b); split; intros H;
    try congruence; try lia.
Qed.

Lemma sample_collation : Collation sampleRuntime.
Proof.
  split; cbn [localeCompare sampleRuntime].
  - intros a b. unfold codeUnitCompare. rewrite (String.compare_antisym b a).
    destruct (String.compare a b); reflexivity.
  - intros a b d H1 H2. apply codeUnitCompare_le in H1, H2.
    apply codeUnitCompare_le. eapply str_le_trans; eassumption.
Qed.


(** ** Initialization *)

Section StartupFacts.
Context {rt : Runtime}.

Lemma restore_step_keeps acc nc x : In x acc -> In x (restore_step acc nc).
Proof.
  unfold restore_step. destruct (find _ acc); [auto|].
  intros H. apply in_or_app. left. exact H.
Qed.

Lemma fold_restore_keeps pre : forall acc x,
  In x acc -> In x (fold_left restore_step pre acc).
Proof.
  induction pre as [|nc pre IH]; simpl; intros acc x H; [exact H|].
  apply IH, restore_step_keeps, H.
Qed.

Lemma fold_restore_has pre : forall acc nc,
  In nc pre -> exists t, In t (fold_left restore_step pre acc) /\ tag_name t = fst nc.
Proof.
  induction pre as [|a pre IH]; simpl; intros acc nc H; [contradiction|].
  destruct H as [->|H]; [|apply IH, H].
  unfold restore_step at 2. destruct (find (named (fst nc)) acc) as [t|] eqn:F.
  - apply find_some in F. destruct F as [Ht Hn]. exists t. split.
    + apply fold_restore_keeps, Ht.
    + apply String.eqb_eq, Hn.
  - exists (mkTag (fst nc) (snd nc)). split; [|reflexivity].
    apply fold_restore_keeps, in_or_app. right. left. reflexivity.
Qed.


Lemma restored_fold ts : restored ts = fold_left restore_step predefined ts.
Proof. reflexivity. Qed.
End StartupFacts.

Section Startup.
Context {rt : Runtime} {C : Collation rt}.

(** The script started over a slot. *)
Lemma startup_slot p b tg k o sb :
  let ts' := sorted_copy tagCompare (restored (loaded p)) in
  startup (mkState b tg k o sb (text_of_slot p)) =
  (Ok tt, mkState b (map js_of_tag ts') None 1 sb (text_of_slot (Kept ts'))).
Proof.
  cbv zeta. unfold startup. unfold bind at 1.
  destruct (loadTags_slot p b tg k o sb) as [sg' R]. rewrite R.
  plumb. rewrite init_tags, sorted_twice. reflexivity.
Qed.

Lemma startup_has p nc :
  In nc predefined ->
  exists t, In t (sorted_copy tagCompare (restored (loaded p))) /\ tag_name t = fst nc.
Proof.
  intros H. rewrite restored_fold.
  destruct (fold_restore_has predefined (loaded p) nc H) as [t [Ht Hn]].
  exists t. split; [|exact Hn].
  apply (Permutation_in _ (sorted_copy_Permutation _ _)), Ht.
Qed.
End Startup.


Section StartupAnyStore.
Context {rt : Runtime}.





End StartupAnyStore.



(** ** The states the script reaches are healthy *)

Lemma hsl_coloured h : hsl h <> "".
Proof. unfold hsl. simpl. discriminate. Qed.

Lemma Forall_Permutation {A} (P : A -> Prop) l l' :
  Permutation l l' -> Forall P l -> Forall P l'.
Proof.
  intros Pm F. rewrite Forall_forall in *. intros x Hx.
  apply F. apply (Permutation_in _ (Permutation_sym Pm)), Hx.
Qed.

Section Healthy.
Context {rt : Runtime} {C : Collation rt}.

Lemma coloured_sorted ts : Forall coloured ts -> Forall coloured (sorted_copy tagCompare ts).
Proof. apply Forall_Permutation, sorted_copy_Permutation. Qed.

Lemma ascending_filter (p : Tag -> bool) ts :
  ascending tagCompare ts -> ascending tagCompare (filter p ts).
Proof. apply StronglySorted_filter. Qed.

Lemma coloured_filter (p : Tag -> bool) ts :
  Forall coloured ts -> Forall coloured (filter p ts).
Proof.
  intros F. rewrite Forall_forall in *. intros x Hx.
  apply filter_In in Hx. apply F, Hx.
Qed.

Lemma ensured_coloured n ts : Forall coloured ts -> Forall coloured (ensured n ts).
Proof.
  intros F. unfold ensured. destruct (trim n =? ""); [exact F|].
  destruct (find (named (trim n)) ts); [exact F|].
  apply coloured_sorted, coloured_sorted, Forall_app. split; [exact F|].
  constructor; [apply hsl_coloured|constructor].
Qed.

Lemma restored_coloured ts : Forall coloured ts -> Forall coloured (restored ts).
Proof.
  unfold restored.
  assert (P : Forall (fun nc : string * string => snd nc <> "") predefined).
  { repeat constructor; discriminate. }
  revert ts P. generalize predefined. intros pre.
  induction pre as [|nc pre IH]; simpl; intros ts P F; [exact F|].
  inversion P; subst. apply IH; [assumption|].
  unfold restore_step. destruct (find (named (fst nc)) ts); [exact F|].
  apply Forall_app. split; [exact F|]. constructor; [assumption|constructor].
Qed.

Lemma tag_of_entry_coloured e : coloured (tag_of_entry e).
Proof.
  destruct e as [n|n [c|]]; unfold coloured; cbn [tag_of_entry tag_color];
    try apply hsl_coloured.
  destruct (c =? "") eqn:E; [apply hsl_coloured|apply String.eqb_neq, E].
Qed.

Lemma healthy_intro b ts k o sb sg :
  (o = 1 \/ o = -1)%Z -> ascending tagCompare ts -> Forall coloured ts ->
  healthy (mkState b (map js_of_tag ts) k o sb sg).
Proof. intros O S F. split; [exact O|]. exists ts. auto. Qed.

Lemma healthy_start : healthy (snd (startup blank)).
Proof.
  pose proof (startup_slot Absent [] [] None 1%Z None) as R. cbv zeta in R.
  change (mkState [] [] None 1 None (text_of_slot Absent)) with blank in R.
  rewrite R. cbn [snd]. apply healthy_intro.
  - left. reflexivity.
  - apply sorted_tags_ascending.
  - apply coloured_sorted, restored_coloured, coloured_sorted.
    repeat constructor; discriminate.
Qed.

Lemma healthy_ensureTagExists n st : healthy st -> healthy (snd (ensureTagExists n st)).
Proof.
  intros [O [ts [T [S F]]]]. destruct st as [b tg k o sb sg].
  cbn [tags sortOrder] in *. subst tg.
  destruct (ensureTagExists_tags n ts b k o sb sg) as [sg' [R _]]. rewrite R.
  cbn [snd]. apply healthy_intro; [exact O| |].
  - apply ensured_ordered, S.
  - apply ensured_coloured, F.
Qed.

(** [renderAll] over a healthy store changes nothing. *)
Lemma renderAll_healthy ts b k o sb sg :
  ascending tagCompare ts ->
  renderAll (mkState b (map js_of_tag ts) k o sb sg) =
  (Ok tt, mkState b (map js_of_tag ts) k o sb sg).
Proof.
  intros S. unfold renderAll, renderTagControls.
  rewrite sortTags_tags, (sorted_tags_fixed ts S). reflexivity.
Qed.

Lemma forEach_ensured names : forall ts b k o sb sg,
  exists sg',
    forEach (fun t => ensureTagExists t ;;; ret tt) names
            (mkState b (map js_of_tag ts) k o sb sg) =
    (Ok tt, mkState b (map js_of_tag (fold_left (fun acc n => ensured n acc) names ts))
                    k o sb sg').
Proof.
  induction names as [|n names IH]; intros ts b k o sb sg.
  - exists sg. reflexivity.
  - cbn [forEach fold_left]. unfold bind at 1 2.
    destruct (ensureTagExists_tags n ts b k o sb sg) as [sg1 [R _]].
    rewrite R. unfold ret at 1. apply IH.
Qed.

Lemma fold_ensured_healthy names : forall ts,
  ascending tagCompare ts -> Forall coloured ts ->
  ascending tagCompare (fold_left (fun acc n => ensured n acc) names ts) /\
  Forall coloured (fold_left (fun acc n => ensured n acc) names ts).
Proof.
  induction names as [|n names IH]; simpl; intros ts S F; [auto|].
  apply IH; [apply ensured_ordered, S|apply ensured_coloured, F].
Qed.

Lemma healthy_saveForm f st : healthy st -> healthy (snd (saveForm f st)).
Proof.
  intros [O [ts [T [S F]]]]. destruct st as [b tg k o sb sg].
  cbn [tags sortOrder] in *. subst tg. unfold saveForm.
  destruct ((trim (f_title f) =? "") || (trim (f_author f) =? "")).
  { cbn [ret snd]. apply healthy_intro; assumption. }
  destruct (forEach_ensured (dedupe (formTags f)) ts b k o sb sg) as [sg' R].
  unfold bind at 1. rewrite R.
  unfold bind at 1. unfold lift. rewrite sort_strings.
  destruct (fold_ensured_healthy (dedupe (formTags f)) ts S F) as [S' F'].
  plumb. destruct (in_range _ _); plumb;
    rewrite (renderAll_healthy _ _ _ _ _ _ S'); cbn [snd];
    apply healthy_intro; assumption.
Qed.

Lemma healthy_deleteBook index c st : healthy st -> healthy (snd (deleteBook index c st)).
Proof.
  intros [O [ts [T [S F]]]]. destruct st as [b tg k o sb sg].
  cbn [tags sortOrder] in *. subst tg. unfold deleteBook.
  destruct c; cbn [negb].
  - plumb. rewrite (renderAll_healthy _ _ _ _ _ _ S). cbn [snd].
    apply healthy_intro; assumption.
  - cbn [ret snd]. apply healthy_intro; assumption.
Qed.

Lemma healthy_deleteFromForm idx c st :
  healthy st -> healthy (snd (deleteFromForm idx c st)).
Proof.
  intros [O [ts [T [S F]]]]. destruct st as [b tg k o sb sg].
  cbn [tags sortOrder] in *. subst tg. unfold deleteFromForm. cbn [books].
  destruct (in_range idx (List.length b)); [|apply healthy_intro; assumption].
  destruct c; cbn [negb]; [|apply healthy_intro; assumption].
  plumb. rewrite (renderAll_healthy _ _ _ _ _ _ S). cbn [snd].
  apply healthy_intro; assumption.
Qed.

Lemma healthy_sortBy key st : healthy st -> healthy (snd (sortBy key st)).
Proof.
  intros [O [ts [T [S F]]]]. destruct st as [b tg k o sb sg].
  cbn [tags sortOrder] in *. subst tg. unfold sortBy. plumb.
  destruct (same_key k key); plumb;
    match goal with |- context [Array_sort ?c ?l] =>
      destruct (Array_sort c l) end; plumb;
    apply healthy_intro; try assumption; lia.
Qed.

Lemma deleteTag_sortOrder n c st :
  sortOrder (snd (deleteTag n c st)) = sortOrder st.
Proof.
  destruct st as [b tg k o sb sg].
  unfold deleteTag, bind at 1, findTagByName. cbn [tags].
  destruct (find_by_name tg n) as [found|e]; [|reflexivity].
  destruct (truthy found); cbn [negb]; [|reflexivity].
  unfold bind at 1. cbn [books].
  destruct (filterM _ b) as [used|e]; [|reflexivity].
  destruct c; cbn [negb]; [|reflexivity].
  unfold bind at 1. cbn [books].
  destruct (strip_books n b) as [l [[]|e]]; [|reflexivity].
  plumb.
  destruct (filterM _ tg) as [l'|e]; [|reflexivity].
  plumb. unfold renderAll, renderTagControls, sortTags. cbn [tags].
  destruct (Array_sort byName l'); reflexivity.
Qed.

Lemma healthy_deleteTag n c st : healthy st -> healthy (snd (deleteTag n c st)).
Proof.
  intros [O [ts [T [S F]]]]. split.
  - rewrite deleteTag_sortOrder. exact O.
  - destruct st as [b tg k o sb sg]. cbn [tags] in T. subst tg.
    destruct (deleteTag_store n c ts b k o sb sg) as [r [st' [R Out]]].
    rewrite R. cbn [snd]. destruct Out as [[Tg _]|[Tg _]].
    + exists ts. auto.
    + eexists. split; [exact Tg|]. split.
      * apply sorted_tags_ascending.
      * apply coloured_sorted, coloured_filter, F.
Qed.

Lemma importBackup_without_tags fs ts b k o sb sg :
  (forall l, get_own fs "tags" <> VArr l) ->
  ascending tagCompare ts ->
  exists b' sb' sg',
    importBackup (Some (JsonText (VObj fs))) (mkState b (map js_of_tag ts) k o sb sg) =
    (Ok (Alert "Import successful."), mkState b' (map js_of_tag ts) k o sb' sg').
Proof.
  intros N S. unfold importBackup, try_catch. plumb. cbn [JSON_parse get].
  destruct (get_own fs "books") as [| | | | |l'|]; plumb;
    (destruct (get_own fs "tags") eqn:E;
     [| | | | |exfalso; apply (N l); reflexivity|]); plumb;
    rewrite (renderAll_healthy _ _ _ _ _ _ S); do 3 eexists; reflexivity.
Qed.

Lemma healthy_importBackup file st :
  backup_file file -> healthy st -> healthy (snd (importBackup file st)).
Proof.
  intros B [O [ts [T [S F]]]]. destruct B as [| |fs es G|fs N].
  - cbn [importBackup ret snd]. split; [exact O|]. exists ts. auto.
  - rewrite importBackup_not_json. cbn [snd]. split; [exact O|]. exists ts. auto.
  - assert (Mp : mapM importTag (map js_of_entry es) =
                 Ok (map js_of_tag (map tag_of_entry es))).
    { rewrite map_map. apply mapM_map. intros e. apply importTag_entry. }
    pose proof (importBackup_tags fs _ _ st G Mp) as R. cbv zeta in R.
    rewrite R. cbn [snd]. apply healthy_intro; [exact O| |].
    + apply sorted_tags_ascending.
    + apply coloured_sorted, coloured_sorted.
      rewrite Forall_forall. intros t Ht. apply in_map_iff in Ht.
      destruct Ht as [e [<- _]]. apply tag_of_entry_coloured.
  - destruct st as [b tg k o sb sg]. cbn [tags sortOrder] in *. subst tg.
    destruct (importBackup_without_tags fs ts b k o sb sg N S) as [b' [sb' [sg' R]]].
    rewrite R. cbn [snd]. apply healthy_intro; assumption.
Qed.

(** Every state the script reaches is healthy. *)
Lemma reachable_healthy st : reachable st -> healthy st.
Proof.
  induction 1.
  - apply healthy_start.
  - apply healthy_ensureTagExists; assumption.
  - apply healthy_saveForm; assumption.
  - apply healthy_deleteFromForm; assumption.
  - apply healthy_deleteBook; assumption.
  - apply healthy_deleteTag; assumption.
  - apply healthy_sortBy; assumption.
  - apply healthy_importBackup; assumption.
Qed.
End Healthy.

(** ** Export then import *)

Section RoundTripFacts.
Context {rt : Runtime}.



Lemma json_value_strings g : json_value (VArr (map VStr g)) = VArr (map VStr g).
Proof.
  change (json_value (VArr (map VStr g))) with (VArr (map json_value (map VStr g))).
  rewrite map_map. reflexivity.
Qed.

(** A book of the data model is written and read back unchanged when its
    year is a text, or a finite number other than negative zero. *)
Lemma json_value_book b :
  match year b with
  | YearText _ => True
  | YearNumber f => is_finite f = true /\ (is_zero f = true -> f = zero)
  end ->
  json_value (js_of_book b) = js_of_book b.
Proof.
  destruct b as [t a y l g]. cbn [year]. intros Y.
  destruct y as [s|f].
  - change (json_value (js_of_book (mkBook t a (YearText s) l g)))
      with (VObj [("title", VStr t); ("author", VStr a); ("year", VStr s);
                  ("link", VStr l); ("tags", json_value (VArr (map VStr g)))]).
    rewrite json_value_strings. reflexivity.
  - change (json_value (js_of_book (mkBook t a (YearNumber f) l g)))
      with (VObj [("title", VStr t); ("author", VStr a); ("year", json_value (VNum f));
                  ("link", VStr l); ("tags", json_value (VArr (map VStr g)))]).
    rewrite json_value_strings. destruct Y as [F Z]. cbn [json_value]. rewrite F.
    destruct (is_zero f); [rewrite (Z eq_refl)|]; reflexivity.
Qed.
End RoundTripFacts.





(** ** The order of the tag store *)




(** ** The theorems at work *)



(** * The rest of the script *)

(** ** Escaping *)

Lemma append_assoc (a b c : string) : ((a ++ b) ++ c = a ++ (b ++ c))%string.
Proof. induction a as [|d a IH]; simpl; [reflexivity|rewrite IH; reflexivity]. Qed.

Lemma replaceAll_app c r a b :
  replaceAll c r (a ++ b)%string = (replaceAll c r a ++ replaceAll c r b)%string.
Proof.
  induction a as [|d a IH]; simpl.
  - reflexivity.
  - destruct (d =? c)%char; rewrite IH.
    + rewrite append_assoc. reflexivity.
    + reflexivity.
Qed.

(** The four replacements one after the other come to the same as one pass
    that writes the entity of each character. *)
Lemma replaced_escaped s :
  replaceAll dquote "&quot;"
    (replaceAll ">" "&gt;" (replaceAll "<" "&lt;" (replaceAll "&" "&amp;" s))) =
  escaped s.
Proof.
  induction s as [|d s IH].
  - reflexivity.
  - cbn [escaped]. rewrite <- IH. unfold entity.
    cbn [replaceAll].
    destruct (d =? "&")%char eqn:E1.
    { rewrite !replaceAll_app. reflexivity. }
    cbn [replaceAll].
    destruct (d =? "<")%char eqn:E2.
    { rewrite !replaceAll_app. reflexivity. }
    cbn [replaceAll].
    destruct (d =? ">")%char eqn:E3.
    { rewrite !replaceAll_app. reflexivity. }
    cbn [replaceAll].
    destruct (d =? dquote)%char eqn:E4; reflexivity.
Qed.

Lemma escaped_markup s :
  Forall (fun c => markup c = false) (list_ascii_of_string (escaped s)).
Proof.
  induction s as [|d s IH]; cbn [escaped].
  - constructor.
  - unfold entity.
    destruct (d =? "&")%char eqn:E1; [repeat constructor; exact IH|].
    destruct (d =? "<")%char eqn:E2; [repeat constructor; exact IH|].
    destruct (d =? ">")%char eqn:E3; [repeat constructor; exact IH|].
    destruct (d =? dquote)%char eqn:E4; [repeat constructor; exact IH|].
    cbn. constructor; [|exact IH].
    unfold markup. rewrite E2, E3, E4. reflexivity.
Qed.

(** The entity of a character tells the character. *)
Lemma escaped_cons_inj c1 c2 s1 s2 :
  (entity c1 ++ s1)%string = (entity c2 ++ s2)%string ->
  c1 = c2 /\ s1 = s2.
Proof.
  intros H. unfold entity in H.
  destruct (c1 =? "&")%char eqn:A1; [apply Ascii.eqb_eq in A1|];
  destruct (c2 =? "&")%char eqn:B1; try apply Ascii.eqb_eq in B1.
  all: try (destruct (c1 =? "<")%char eqn:A2; [apply Ascii.eqb_eq in A2|]).
  all: try (destruct (c2 =? "<")%char eqn:B2; [apply Ascii.eqb_eq in B2|]).
  all: try (destruct (c1 =? ">")%char eqn:A3; [apply Ascii.eqb_eq in A3|]).
  all: try (destruct (c2 =? ">")%char eqn:B3; [apply Ascii.eqb_eq in B3|]).
  all: try (destruct (c1 =? dquote)%char eqn:A4; [apply Ascii.eqb_eq in A4|]).
  all: try (destruct (c2 =? dquote)%char eqn:B4; [apply Ascii.eqb_eq in B4|]).
  all: subst; cbn in H; try discriminate.
  all: try (injection H as ?; subst; split; reflexivity).
  all: try (injection H as E ?; subst;
            first [rewrite Ascii.eqb_refl in A1 | rewrite Ascii.eqb_refl in B1];
            discriminate).
Qed.

Lemma escaped_inj s1 : forall s2, escaped s1 = escaped s2 -> s1 = s2.
Proof.
  induction s1 as [|c1 s1 IH]; intros [|c2 s2] H; cbn [escaped] in H.
  - reflexivity.
  - exfalso. unfold entity in H.
    destruct (c2 =? "&")%char; [discriminate|].
    destruct (c2 =? "<")%char; [discriminate|].
    destruct (c2 =? ">")%char; [discriminate|].
    destruct (c2 =? dquote)%char; discriminate.
  - exfalso. unfold entity in H.
    destruct (c1 =? "&")%char; [discriminate|].
    destruct (c1 =? "<")%char; [discriminate|].
    destruct (c1 =? ">")%char; [discriminate|].
    destruct (c1 =? dquote)%char; discriminate.
  - apply escaped_cons_inj in H.
    destruct H as [-> H]. f_equal. apply IH. exact H.
Qed.

Section EscapeFacts.
Context {rt : Runtime}.

Lemma escapeHtml_escaped v out :
  escapeHtml v = Ok out ->
  out = "" \/ exists t, ToString v = Ok t /\ out = escaped t.
Proof.
  unfold escapeHtml.
  destruct v; try (intros H; injection H as <-; left; reflexivity).
  all: destruct (ToString _) as [t|e] eqn:T; cbn [rbind]; intros H; try discriminate.
  all: injection H as <-; right; exists t; rewrite replaced_escaped; split;
       [first [exact T | reflexivity]|reflexivity].
Qed.

Lemma underscored_length s : String.length (underscored s) = String.length s.
Proof. induction s as [|c s IH]; simpl; [reflexivity|rewrite IH; reflexivity]. Qed.

Lemma underscored_word s :
  Forall (fun c => is_word c = true) (list_ascii_of_string (underscored s)).
Proof.
  induction s as [|c s IH]; simpl.
  - constructor.
  - constructor; [|exact IH]. destruct (is_word c) eqn:W; [exact W|reflexivity].
Qed.

Lemma underscored_fixed s :
  Forall (fun c => is_word c = true) (list_ascii_of_string s) -> underscored s = s.
Proof.
  induction s as [|c s IH]; simpl; intros H.
  - reflexivity.
  - inversion H as [|? ? W R]; subst. rewrite W, (IH R). reflexivity.
Qed.
End EscapeFacts.

(** X1.  Whatever value [escapeHtml] is given, the text it returns holds
    no [<], no [>] and no double quote; [null] and [undefined] give the
    empty text. *)
Theorem escapeHtml_leaves_no_markup (rt : Runtime) (v : jsval) (out : string) :
  escapeHtml v = Ok out ->
  Forall (fun c => c <> "<"%char /\ c <> ">"%char /\ c <> dquote)
         (list_ascii_of_string out) /\
  escapeHtml VNull = Ok "" /\ escapeHtml VUndef = Ok "".
Proof.
  intros H. split; [|split; reflexivity].
  assert (M : Forall (fun c => markup c = false) (list_ascii_of_string out)).
  { destruct (escapeHtml_escaped v out H) as [->|[t [_ ->]]].
    - constructor.
    - apply escaped_markup. }
  eapply Forall_impl; [|exact M].
  intros c Hc. unfold markup in Hc.
  apply orb_false_iff in Hc. destruct Hc as [Hc H3].
  apply orb_false_iff in Hc. destruct Hc as [H1 H2].
  repeat split; intros ->.
  - discriminate H1.
  - discriminate H2.
  - discriminate H3.
Qed.

Lemma escapeHtml_leaves_no_markup_witness :
  Forall (fun c => c <> "<"%char /\ c <> ">"%char /\ c <> dquote)
         (list_ascii_of_string "a &lt; b &amp;&amp; &quot;c&quot;") /\
  @escapeHtml sampleRuntime VNull = Ok "" /\ @escapeHtml sampleRuntime VUndef = Ok "".
Proof.
  apply (escapeHtml_leaves_no_markup sampleRuntime
           (VStr (String "a" (String " " (String "<" (String " " (String "b"
              (String " " (String "&" (String "&" (String " "
                 (String dquote (String "c" (String dquote EmptyString)))))))))))))).
  reflexivity.
Defined.

(** X2.  [escapeHtml] loses nothing: two texts with the same escaped text
    are the same text. *)
Theorem escapeHtml_injective (rt : Runtime) (s1 s2 : string) :
  escapeHtml (VStr s1) = escapeHtml (VStr s2) -> s1 = s2.
Proof.
  unfold escapeHtml. cbn [ToString rbind]. rewrite !replaced_escaped.
  intros H. injection H as H. apply escaped_inj. exact H.
Qed.

Lemma escapeHtml_injective_witness :
  @escapeHtml sampleRuntime (VStr "<b>") = @escapeHtml sampleRuntime (VStr "<b>") /\
  "<b>" = "<b>".
Proof.
  split; [reflexivity|].
  apply (escapeHtml_injective sampleRuntime "<b>" "<b>"). reflexivity.
Defined.

(** X3.  [escapeId] of a text has the length of the text and holds only
    letters, digits and underscores; a text of such characters comes back
    as it is, so that applying [escapeId] again changes nothing. *)
Theorem escapeId_word_characters (rt : Runtime) (s : string) :
  exists out,
    escapeId (VStr s) = Ok out /\
    String.length out = String.length s /\
    Forall (fun c => is_word c = true) (list_ascii_of_string out) /\
    (Forall (fun c => is_word c = true) (list_ascii_of_string s) -> out = s) /\
    escapeId (VStr out) = Ok out.
Proof.
  exists (underscored s). unfold escapeId. cbn [ToString rbind].
  split; [reflexivity|].
  split; [apply underscored_length|].
  split; [apply underscored_word|].
  split; [apply underscored_fixed|].
  rewrite (underscored_fixed _ (underscored_word s)). reflexivity.
Qed.

(** ** Colours *)

Lemma ToInt32_range z : (- 2 ^ 31 <= ToInt32 z < 2 ^ 31)%Z.
Proof.
  unfold ToInt32.
  pose proof (Z.mod_pos_bound (z + 2 ^ 31) (2 ^ 32) ltac:(lia)). lia.
Qed.

Lemma hash_from_range s : forall h,
  (- 2 ^ 31 <= h < 2 ^ 31)%Z -> (- 2 ^ 31 <= hash_from h s < 2 ^ 31)%Z.
Proof.
  induction s as [|c s IH]; intros h H; cbn [hash_from].
  - exact H.
  - apply IH. apply ToInt32_range.
Qed.

(** X4.  The colour of a name is [hsl(h 70% 45%)] for a hue [h] from 0 to
    359, the remainder of the magnitude of a hash that stays a 32-bit
    integer however long the name; a name of no characters has hue 0. *)
Theorem colorForTagName_hue (rt : Runtime) (s : string) :
  exists h,
    colorForTagName (VStr s) = Ok ("hsl(" ++ decimal h ++ " 70% 45%)")%string /\
    (0 <= h < 360)%Z /\
    h = (Z.abs (hash_from 0 s) mod 360)%Z /\
    (- 2 ^ 31 <= hash_from 0 s < 2 ^ 31)%Z /\
    colorForTagName (VStr "") = Ok "hsl(0 70% 45%)".
Proof.
  exists (Z.abs (hash_from 0 s) mod 360)%Z.
  split; [reflexivity|].
  split; [apply Z.mod_pos_bound; lia|].
  split; [reflexivity|].
  split; [apply hash_from_range; lia|reflexivity].
Qed.

(** ** Blanks *)

Lemma trimEnd_inner c s :
  is_space c = false -> trimEnd (String c s) = String c (trimEnd s).
Proof.
  intros H. cbn [trimEnd]. destruct (trimEnd s); [rewrite H|]; reflexivity.
Qed.

Lemma trimEnd_again s : trimEnd (trimEnd s) = trimEnd s.
Proof.
  induction s as [|c s IH].
  - reflexivity.
  - cbn [trimEnd]. destruct (trimEnd s) as [|d r] eqn:E.
    + destruct (is_space c) eqn:S; [reflexivity|].
      cbn [trimEnd]. rewrite S. reflexivity.
    + cbn [trimEnd]. cbn [trimEnd] in IH.
      destruct (trimEnd r) as [|d' r'] eqn:E'.
      * destruct (is_space d) eqn:S; [discriminate IH|]. rewrite IH. reflexivity.
      * rewrite IH. reflexivity.
Qed.

(** What [trimEnd] leaves of a text that starts with no blank starts with
    no blank. *)
Lemma trimStart_trimEnd s : trimStart s = s -> trimStart (trimEnd s) = trimEnd s.
Proof.
  destruct s as [|c s]; [reflexivity|].
  intros H. cbn [trimStart] in H.
  destruct (is_space c) eqn:S.
  - exfalso.
    assert (L : forall t, (String.length (trimStart t) <= String.length t)%nat).
    { induction t as [|d t IHt]; cbn [trimStart]; [lia|].
      destruct (is_space d); cbn [String.length]; lia. }
    pose proof (L s) as Ls. rewrite H in Ls. cbn [String.length] in Ls. lia.
  - rewrite (trimEnd_inner c s S). cbn [trimStart]. rewrite S. reflexivity.
Qed.

Lemma trimStart_again s : trimStart (trimStart s) = trimStart s.
Proof.
  induction s as [|c s IH]; [reflexivity|].
  cbn [trimStart]. destruct (is_space c) eqn:S; [exact IH|].
  cbn [trimStart]. rewrite S. reflexivity.
Qed.

Lemma trim_again s : trim (trim s) = trim s.
Proof.
  unfold trim.
  rewrite (trimStart_trimEnd (trimStart s) (trimStart_again s)).
  apply trimEnd_again.
Qed.

(** X5.  [addCustomTagFromInput] leaves the state [ensureTagExists] leaves
    on the text of the input, and never raises where it does not: trimming
    the text first changes nothing, since [ensureTagExists] trims too. *)
Theorem addCustomTagFromInput_as_ensureTagExists
  (rt : Runtime) (val : string) (st : state) :
  snd (addCustomTagFromInput val st) = snd (ensureTagExists val st) /\
  (fst (addCustomTagFromInput val st) = Ok tt <->
   exists t, fst (ensureTagExists val st) = Ok t).
Proof.
  unfold addCustomTagFromInput.
  assert (E : ensureTagExists (trim val) = ensureTagExists val).
  { unfold ensureTagExists. rewrite trim_again. reflexivity. }
  destruct (trim val =? "") eqn:B.
  - unfold ensureTagExists. rewrite B. unfold ret. cbn [fst snd].
    split; [reflexivity|]. split; [intros _; exists VNull; reflexivity|reflexivity].
  - rewrite E. unfold bind, ret.
    destruct (ensureTagExists val st) as [[t|e] st']; cbn [fst snd].
    + split; [reflexivity|]. split; [intros _; exists t; reflexivity|reflexivity].
    + split; [reflexivity|]. split; [discriminate|intros [t H]; discriminate H].
Qed.

(** ** The book list *)

Lemma remove_at_firstn {A} (xs : list A) : forall i,
  remove_at xs i = firstn i xs ++ skipn (S i) xs.
Proof.
  induction xs as [|x xs IH]; intros [|i]; try reflexivity.
  cbn [remove_at firstn skipn app]. rewrite IH. reflexivity.
Qed.

Lemma assign_firstn {A} (xs : list A) (x : A) : forall i,
  (i < List.length xs)%nat ->
  assign xs i x = firstn i xs ++ x :: skipn (S i) xs.
Proof.
  induction xs as [|y xs IH]; intros [|i] H; cbn [List.length] in H; try lia.
  - reflexivity.
  - cbn [assign firstn skipn app]. rewrite IH by lia. reflexivity.
Qed.

Lemma splice1_nonnegative {A} (xs : list A) (i : nat) :
  splice1 xs (Z.of_nat i) = firstn i xs ++ skipn (S i) xs.
Proof.
  unfold splice1.
  assert (E : (Z.of_nat i <? 0)%Z = false) by (apply Z.ltb_ge; lia).
  rewrite E.
  destruct (Nat.lt_ge_cases i (List.length xs)) as [L|L].
  - rewrite Z.min_l by lia. rewrite Nat2Z.id. apply remove_at_firstn.
  - rewrite Z.min_r by lia. rewrite Nat2Z.id. rewrite remove_at_firstn.
    rewrite !firstn_all2 by lia. rewrite !skipn_all2 by lia. reflexivity.
Qed.

Lemma splice1_negative {A} (xs : list A) (index : Z) :
  (index < 0)%Z ->
  let i := Z.to_nat (Z.of_nat (List.length xs) + index) in
  splice1 xs index = firstn i xs ++ skipn (S i) xs.
Proof.
  intros H i. unfold splice1. apply Z.ltb_lt in H. rewrite H.
  rewrite remove_at_firstn. subst i. f_equal; f_equal; lia.
Qed.

Section BookFacts.
Context {rt : Runtime}.

(** [renderAll] touches neither the books nor their slot nor the sort
    variables. *)
Lemma renderAll_books st :
  books (snd (renderAll st)) = books st /\
  stored_books (snd (renderAll st)) = stored_books st /\
  lastSortKey (snd (renderAll st)) = lastSortKey st /\
  sortOrder (snd (renderAll st)) = sortOrder st.
Proof.
  unfold renderAll, renderTagControls, sortTags.
  destruct (Array_sort byName (tags st)); repeat split; reflexivity.
Qed.

Lemma deleteBook_books index st :
  let st' := snd (deleteBook index true st) in
  books st' = splice1 (books st) index /\
  stored_books st' = Some (JSON_stringify (VArr (books st'))) /\
  lastSortKey st' = lastSortKey st /\ sortOrder st' = sortOrder st.
Proof.
  unfold deleteBook. cbn [negb]. plumb.
  match goal with |- context [renderAll ?s] =>
    destruct (renderAll_books s) as [B [S [K O]]] end.
  cbv zeta. rewrite B, S, K, O. repeat split; reflexivity.
Qed.

Lemma saveForm_tags f ts b k o sb sg :
  trim (f_title f) <> "" -> trim (f_author f) <> "" ->
  let b' := if in_range (editingIndex f) (List.length b)
            then assign b (Z.to_nat (match editingIndex f with Some i => i | None => 0%Z end))
                        (js_of_book (draft_book f))
            else b ++ [js_of_book (draft_book f)] in
  let ts' := sorted_copy tagCompare
               (fold_left (fun acc n => ensured n acc) (dedupe (formTags f)) ts) in
  exists sg',
    saveForm f (mkState b (map js_of_tag ts) k o sb sg) =
    (Ok Quiet, mkState b' (map js_of_tag ts') k o (Some (JSON_stringify (VArr b'))) sg').
Proof.
  intros Ht Ha. unfold saveForm.
  apply String.eqb_neq in Ht, Ha. rewrite Ht, Ha. cbn [orb].
  destruct (forEach_ensured (dedupe (formTags f)) ts b k o sb sg) as [sg' R].
  unfold bind at 1. rewrite R.
  unfold bind at 1. unfold lift. rewrite sort_strings.
  assert (D : VObj [("title", VStr (trim (f_title f))); ("author", VStr (trim (f_author f)));
                    ("year", if f_year f =? "" then VStr ""
                             else if is_nan (stringToNumber (f_year f)) then VStr (f_year f)
                                  else VNum (stringToNumber (f_year f)));
                    ("link", VStr (trim (f_link f)));
                    ("tags", VArr (map VStr (sorted_copy localeCompare (dedupe (formTags f)))))]
               = js_of_book (draft_book f)).
  { unfold js_of_book, draft_book. cbn [title author year link book_tags].
    destruct (f_year f =? ""); [reflexivity|].
    destruct (is_nan (stringToNumber (f_year f))); reflexivity. }
  rewrite D. exists sg'.
  plumb. destruct (in_range (editingIndex f) (List.length b)); plumb;
    unfold renderAll, renderTagControls; rewrite sortTags_tags; reflexivity.
Qed.
End BookFacts.

(** X6.  [loadBooks] after [saveBooks] returns the list that was written,
    book for book when the books are records whose year JSON carries
    unchanged; an absent slot and a text that does not parse give the empty
    list, and [loadBooks] never changes the state. *)
Theorem loadBooks_reads_what_saveBooks_wrote (rt : Runtime) (st : state) :
  fst (loadBooks (snd (saveBooks st))) = Ok (VArr (map json_value (books st))) /\
  (forall bs, books st = map js_of_book bs -> Forall plain_year bs ->
              fst (loadBooks (snd (saveBooks st))) = Ok (VArr (books st))) /\
  (stored_books st = None \/ stored_books st = Some NotJson ->
   fst (loadBooks st) = Ok (VArr [])) /\
  snd (loadBooks st) = st.
Proof.
  split; [reflexivity|]. split; [|split].
  - intros bs B Y. unfold saveBooks, loadBooks. plumb.
    unfold JSON_stringify. cbn [json_value fst]. rewrite B.
    do 2 f_equal. rewrite map_map. apply map_ext_in.
    intros x Hx. apply json_value_book.
    rewrite Forall_forall in Y. exact (Y x Hx).
  - intros [H|H]; unfold loadBooks; rewrite H; reflexivity.
  - unfold loadBooks. destruct (stored_books st) as [[|v]|]; reflexivity.
Qed.

(** X7.  [deleteBook], confirmed: an index within the list removes the
    book at that index and no other, an index at or past the end removes
    nothing, a negative index counts from the end and, when it reaches
    before the start, removes the first book; the list is written to
    storage and the sort variables stay.  Not confirmed, nothing happens. *)
Theorem deleteBook_by_index (rt : Runtime) (index : Z) (st : state) :
  let n := List.length (books st) in
  let st' := snd (deleteBook index true st) in
  let without (i : nat) := firstn i (books st) ++ skipn (S i) (books st) in
  ((0 <= index < Z.of_nat n)%Z -> books st' = without (Z.to_nat index)) /\
  ((Z.of_nat n <= index)%Z -> books st' = books st) /\
  ((- Z.of_nat n <= index < 0)%Z -> books st' = without (Z.to_nat (Z.of_nat n + index))) /\
  ((index < - Z.of_nat n)%Z -> books st' = skipn 1 (books st)) /\
  stored_books st' = Some (JSON_stringify (VArr (books st'))) /\
  lastSortKey st' = lastSortKey st /\ sortOrder st' = sortOrder st /\
  deleteBook index false st = (Ok tt, st).
Proof.
  intros n st' without.
  destruct (deleteBook_books index st) as [B [S [K O]]]. fold st' in B, S, K, O.
  repeat split; try assumption.
  - intros H. rewrite B. rewrite <- (Z2Nat.id index) at 1 by lia.
    apply splice1_nonnegative.
  - intros H. rewrite B. apply splice1_past_end. exact H.
  - intros H. rewrite B. apply splice1_negative. lia.
  - intros H. rewrite B. rewrite splice1_negative by lia.
    replace (Z.to_nat (Z.of_nat (List.length (books st)) + index)) with 0%nat by (subst n; lia).
    reflexivity.
Qed.

(** X8.  [deleteFromForm] removes a book only for an index within the
    list and only when confirmed, and then does what [deleteBook] does with
    that index; for any other index, a negative one and NaN included, the
    state is left as it is. *)
Theorem deleteFromForm_guards_index (rt : Runtime) (idx : option Z) (confirmed : bool)
        (st : state) :
  (in_range idx (List.length (books st)) = false ->
   deleteFromForm idx confirmed st = (Ok tt, st)) /\
  deleteFromForm idx false st = (Ok tt, st) /\
  (forall i, idx = Some i -> in_range idx (List.length (books st)) = true ->
             deleteFromForm idx true st = deleteBook i true st) /\
  deleteFromForm None confirmed st = (Ok tt, st).
Proof.
  unfold deleteFromForm. repeat split.
  - intros H. rewrite H. reflexivity.
  - destruct (in_range idx (List.length (books st))); reflexivity.
  - intros i -> H. rewrite H. reflexivity.
Qed.

(** X9.  A form with a title and an author and an index within the list,
    saved over books that are records and a store of tags, replaces the book at that index by the book
    built from the form: the books before and after it keep their places,
    the list keeps its length and is written to storage. *)
Theorem saveForm_in_range_replaces (rt : Runtime) (f : form) (st : state)
        (bs : list Book) (ts : list Tag) (i : nat) :
  books st = map js_of_book bs -> tags st = map js_of_tag ts ->
  trim (f_title f) <> "" -> trim (f_author f) <> "" ->
  editingIndex f = Some (Z.of_nat i) -> (i < List.length (books st))%nat ->
  exists st',
    saveForm f st = (Ok Quiet, st') /\
    books st' = firstn i (books st) ++ js_of_book (draft_book f) :: skipn (S i) (books st) /\
    List.length (books st') = List.length (books st) /\
    stored_books st' = Some (JSON_stringify (VArr (books st'))) /\
    lastSortKey st' = lastSortKey st /\ sortOrder st' = sortOrder st.
Proof.
  intros Bs Ts Ht Ha Hi Hl. destruct st as [b tg k o sb sg]. cbn [tags books] in *.
  subst tg. clear Bs.
  destruct (saveForm_tags f ts b k o sb sg Ht Ha) as [sg' R].
  rewrite R. eexists. split; [reflexivity|]. cbn [books stored_books lastSortKey sortOrder].
  assert (E : in_range (editingIndex f) (List.length b) = true).
  { rewrite Hi. unfold in_range. apply andb_true_iff.
    split; [apply Z.leb_le|apply Z.ltb_lt]; lia. }
  rewrite E, Hi, Nat2Z.id. rewrite (assign_firstn b _ i Hl).
  repeat split.
  rewrite length_app. cbn [List.length]. rewrite length_firstn, length_skipn. lia.
Qed.

Lemma saveForm_in_range_replaces_witness :
  let f := mkForm (Some 0%Z) " A " "Z" "1999" "" ["Math"] in
  let st := mkState [js_of_book book_B; js_of_book book_A]
                    (map js_of_tag predefined_tags_sorted) None 1 None None in
  exists st',
    @saveForm sampleRuntime f st = (Ok Quiet, st') /\
    books st' = firstn 0 (books st) ++
                js_of_book (@draft_book sampleRuntime f) :: skipn 1 (books st) /\
    List.length (books st') = List.length (books st) /\
    stored_books st' = Some (JSON_stringify (VArr (books st'))) /\
    lastSortKey st' = lastSortKey st /\ sortOrder st' = sortOrder st.
Proof.
  cbv zeta.
  apply (saveForm_in_range_replaces sampleRuntime
           (mkForm (Some 0%Z) " A " "Z" "1999" "" ["Math"])
           (mkState [js_of_book book_B; js_of_book book_A]
                    (map js_of_tag predefined_tags_sorted) None 1 None None)
           [book_B; book_A] predefined_tags_sorted 0).
  - reflexivity.
  - reflexivity.
  - vm_compute. discriminate.
  - vm_compute. discriminate.
  - reflexivity.
  - cbn. lia.
Defined.

(** ** The tags of a saved book *)

Lemma existsb_eqb_In x l : existsb (String.eqb x) l = true <-> In x l.
Proof.
  rewrite existsb_exists. split.
  - intros [y [H E]]. apply String.eqb_eq in E. subst y. exact H.
  - intros H. exists x. split; [exact H|apply String.eqb_refl].
Qed.

Lemma dedupe_from xs : forall acc,
  NoDup acc ->
  let r := fold_left (fun seen x => if existsb (String.eqb x) seen then seen
                                    else seen ++ [x]) xs acc in
  NoDup r /\ forall x, In x r <-> In x acc \/ In x xs.
Proof.
  induction xs as [|y xs IH]; intros acc N; cbn [fold_left].
  - split; [exact N|]. intros x. cbn [In]. tauto.
  - destruct (existsb (String.eqb y) acc) eqn:E.
    + destruct (IH acc N) as [N' I]. split; [exact N'|].
      intros x. rewrite I. cbn [In]. apply existsb_eqb_In in E.
      split; [tauto|]. intros [H|[H|H]]; [tauto|subst; tauto|tauto].
    + assert (N1 : NoDup (acc ++ [y])).
      { apply NoDup_app; [exact N|repeat constructor; intros []|].
        intros a Ha [<-|[]]. apply existsb_eqb_In in Ha. congruence. }
      destruct (IH (acc ++ [y]) N1) as [N' I]. split; [exact N'|].
      intros x. rewrite I, in_app_iff. cbn [In]. tauto.
Qed.

Lemma dedupe_NoDup xs : NoDup (dedupe xs).
Proof. exact (proj1 (dedupe_from xs [] (NoDup_nil _))). Qed.

Lemma dedupe_In xs x : In x (dedupe xs) <-> In x xs.
Proof.
  pose proof (proj2 (dedupe_from xs [] (NoDup_nil _)) x) as H.
  unfold dedupe. rewrite H. cbn [In]. tauto.
Qed.

Section EnsuredFacts.
Context {rt : Runtime}.

Lemma ensured_keeps n ts g : In g ts -> In g (ensured n ts).
Proof.
  intros H. unfold ensured.
  destruct (trim n =? ""); [exact H|].
  destruct (find (named (trim n)) ts); [exact H|].
  eapply Permutation_in; [apply sorted_copy_Permutation|].
  eapply Permutation_in; [apply sorted_copy_Permutation|].
  apply in_or_app. left. exact H.
Qed.

Lemma ensured_has n ts :
  trim n <> "" -> exists g, In g (ensured n ts) /\ tag_name g = trim n.
Proof.
  intros H. unfold ensured. apply String.eqb_neq in H. rewrite H.
  destruct (find (named (trim n)) ts) as [g|] eqn:F.
  - apply find_some in F. destruct F as [I N]. exists g. split; [exact I|].
    apply String.eqb_eq. exact N.
  - exists (mkTag (trim n) (hsl (hash_from 0 (trim n)))). split; [|reflexivity].
    eapply Permutation_in; [apply sorted_copy_Permutation|].
    eapply Permutation_in; [apply sorted_copy_Permutation|].
    apply in_or_app. right. left. reflexivity.
Qed.

Lemma ensured_only n ts g :
  In g (ensured n ts) -> In g ts \/ g = mkTag (trim n) (hsl (hash_from 0 (trim n))).
Proof.
  unfold ensured.
  destruct (trim n =? ""); [tauto|].
  destruct (find (named (trim n)) ts); [tauto|].
  intros H.
  eapply Permutation_in in H; [|apply Permutation_sym, sorted_copy_Permutation].
  eapply Permutation_in in H; [|apply Permutation_sym, sorted_copy_Permutation].
  apply in_app_or in H. destruct H as [H|[H|[]]]; [left; exact H|right; symmetry; exact H].
Qed.

Lemma fold_ensured_keeps names : forall ts g,
  In g ts -> In g (fold_left (fun acc n => ensured n acc) names ts).
Proof.
  induction names as [|n names IH]; intros ts g H; cbn [fold_left].
  - exact H.
  - apply IH, ensured_keeps, H.
Qed.

Lemma fold_ensured_has names : forall ts n,
  In n names -> trim n <> "" ->
  exists g, In g (fold_left (fun acc n => ensured n acc) names ts) /\ tag_name g = trim n.
Proof.
  induction names as [|m names IH]; intros ts n H T; cbn [fold_left].
  - destruct H.
  - destruct H as [->|H].
    + destruct (ensured_has n ts T) as [g [I N]].
      exists g. split; [apply fold_ensured_keeps, I|exact N].
    + apply IH; assumption.
Qed.

Lemma fold_ensured_only names : forall ts g,
  In g (fold_left (fun acc n => ensured n acc) names ts) ->
  In g ts \/ exists n, In n names /\ g = mkTag (trim n) (hsl (hash_from 0 (trim n))).
Proof.
  induction names as [|m names IH]; intros ts g H; cbn [fold_left] in H.
  - left. exact H.
  - destruct (IH _ _ H) as [I|[n [I E]]].
    + destruct (ensured_only _ _ _ I) as [J|J]; [left; exact J|].
      right. exists m. split; [left; reflexivity|exact J].
    + right. exists n. split; [right; exact I|exact E].
Qed.
End EnsuredFacts.

(** X10.  After a form with a title and an author is saved over books
    that are records and a store of tags, the book built from it carries each checked tag once and no
    other, every checked tag that is not blank names a tag of the store
    (by its trimmed text), no tag the store had is lost, and every tag that
    is new was made for a checked tag, with the colour of its name. *)
Theorem saveForm_tags_exist (rt : Runtime) (f : form) (st : state)
        (bs : list Book) (ts : list Tag) :
  books st = map js_of_book bs -> tags st = map js_of_tag ts ->
  trim (f_title f) <> "" -> trim (f_author f) <> "" ->
  exists st' ts',
    saveForm f st = (Ok Quiet, st') /\
    tags st' = map js_of_tag ts' /\
    In (js_of_book (draft_book f)) (books st') /\
    NoDup (book_tags (draft_book f)) /\
    (forall t, In t (book_tags (draft_book f)) <-> In t (formTags f)) /\
    (forall t, In t (formTags f) -> trim t <> "" ->
               exists g, In g ts' /\ tag_name g = trim t) /\
    (forall g, In g ts -> In g ts') /\
    (forall g, In g ts' ->
               In g ts \/
               exists t, In t (formTags f) /\ g = mkTag (trim t) (hsl (hash_from 0 (trim t)))).
Proof.
  intros _ Ts Ht Ha. destruct st as [b tg k o sb sg]. cbn [tags] in Ts. subst tg.
  destruct (saveForm_tags f ts b k o sb sg Ht Ha) as [sg' R].
  rewrite R. eexists. eexists. split; [reflexivity|]. cbn [tags books].
  split; [reflexivity|].
  pose proof (sorted_copy_Permutation (@localeCompare rt) (dedupe (formTags f))) as P.
  split; [|split; [|split; [|split; [|split]]]].
  - destruct (in_range (editingIndex f) (List.length b)) eqn:E.
    + unfold in_range in E. destruct (editingIndex f) as [i|]; [|discriminate].
      apply andb_true_iff in E. destruct E as [E1 E2].
      apply Z.leb_le in E1. apply Z.ltb_lt in E2.
      rewrite assign_firstn by lia. apply in_or_app. right. left. reflexivity.
    + apply in_or_app. right. left. reflexivity.
  - cbn [draft_book book_tags]. eapply Permutation_NoDup; [exact P|apply dedupe_NoDup].
  - intros t. cbn [draft_book book_tags]. rewrite <- (dedupe_In (formTags f) t).
    split; intros H.
    + eapply Permutation_in; [apply Permutation_sym, P|exact H].
    + eapply Permutation_in; [exact P|exact H].
  - intros t I T.
    destruct (fold_ensured_has (dedupe (formTags f)) ts t (proj2 (dedupe_In _ _) I) T)
      as [g [J N]].
    exists g. split; [|exact N].
    eapply Permutation_in; [apply sorted_copy_Permutation|exact J].
  - intros g I.
    eapply Permutation_in; [apply sorted_copy_Permutation|].
    apply fold_ensured_keeps, I.
  - intros g I.
    eapply Permutation_in in I; [|apply Permutation_sym, sorted_copy_Permutation].
    destruct (fold_ensured_only _ _ _ I) as [J|[t [J E]]]; [left; exact J|].
    right. exists t. split; [apply dedupe_In, J|exact E].
Qed.

Lemma saveForm_tags_exist_witness :
  let f := mkForm None "T" "A" "" "" [" Logic "; "Math"; " Logic "] in
  let st := snd (@startup sampleRuntime blank) in
  exists st' ts',
    @saveForm sampleRuntime f st = (Ok Quiet, st') /\
    tags st' = map js_of_tag ts' /\
    In (js_of_book (@draft_book sampleRuntime f)) (books st') /\
    NoDup (book_tags (@draft_book sampleRuntime f)) /\
    (forall t, In t (book_tags (@draft_book sampleRuntime f)) <-> In t (formTags f)) /\
    (forall t, In t (formTags f) -> trim t <> "" ->
               exists g, In g ts' /\ tag_name g = trim t) /\
    (forall g, In g predefined_tags_sorted -> In g ts') /\
    (forall g, In g ts' ->
               In g predefined_tags_sorted \/
               exists t, In t (formTags f) /\ g = mkTag (trim t) (hsl (hash_from 0 (trim t)))).
Proof.
  cbv zeta.
  apply (saveForm_tags_exist sampleRuntime
           (mkForm None "T" "A" "" "" [" Logic "; "Math"; " Logic "])
           (snd (@startup sampleRuntime blank)) [] predefined_tags_sorted).
  - reflexivity.
  - reflexivity.
  - vm_compute. discriminate.
  - vm_compute. discriminate.
Defined.

(** ** The slot of the tags *)

Section SlotFacts.
Context {rt : Runtime} {C : Collation rt}.

(** A store that has a tag for every predefined name gets none from
    [init]. *)
Lemma fold_restore_fixed pre : forall ts,
  (forall nc, In nc pre -> exists t, In t ts /\ tag_name t = fst nc) ->
  fold_left restore_step pre ts = ts.
Proof.
  induction pre as [|nc pre IH]; intros ts H; cbn [fold_left].
  - reflexivity.
  - assert (E : restore_step ts nc = ts).
    { unfold restore_step. destruct (find (named (fst nc)) ts) eqn:F; [reflexivity|].
      destruct (H nc (or_introl eq_refl)) as [t [I N]].
      pose proof (find_none _ _ F t I) as X. unfold named in X.
      rewrite N, String.eqb_refl in X. discriminate. }
    rewrite E. apply IH. intros nc' I. apply H. right. exact I.
Qed.

Lemma started_fixed p :
  let ts' := sorted_copy tagCompare (restored (loaded p)) in
  sorted_copy tagCompare (restored (loaded (Kept ts'))) = ts'.
Proof.
  intros ts'.
  assert (L : loaded (Kept ts') = ts').
  { destruct ts' as [|t r] eqn:E.
    - exfalso. destruct (startup_has p ("Math", "#2f9e44") (or_introl eq_refl)) as [t [I _]].
      fold ts' in I. rewrite E in I. destruct I.
    - cbn [loaded]. rewrite <- E. subst ts'. apply sorted_twice. }
  rewrite L.
  assert (R : restored ts' = ts').
  { unfold restored. apply fold_restore_fixed. intros nc I. apply startup_has, I. }
  rewrite R. subst ts'. apply sorted_twice.
Qed.
End SlotFacts.

(** X11.  What [saveTags] writes of a store of tags in order, [loadTags]
    reads back as it was, leaving the slot alone; when the store is empty,
    [loadTags] returns the predefined tags in order instead and writes them
    to the slot. *)
Theorem loadTags_reads_what_saveTags_wrote (rt : Runtime) (C : Collation rt)
        (st : state) (ts : list Tag) :
  tags st = map js_of_tag ts -> ascending tagCompare ts ->
  (ts <> [] -> loadTags (snd (saveTags st)) = (Ok (tags st), snd (saveTags st))) /\
  (ts = [] ->
   let base := map js_of_tag (sorted_copy tagCompare predefined_tags) in
   loadTags (snd (saveTags st)) =
   (Ok base, set_stored_tags (Some (JSON_stringify (VArr base))) st)).
Proof.
  intros T S. destruct st as [b tg k o sb sg]. cbn [tags] in T. subst tg.
  unfold saveTags, loadTags. plumb. unfold JSON_stringify. cbn [json_value].
  rewrite json_value_tags. split.
  - intros N. destruct ts as [|t r]; [contradiction|].
    cbn [map]. change (js_of_tag t :: map js_of_tag r) with (map js_of_tag (t :: r)).
    rewrite (Array_sort_map js_of_tag byName tagCompare byName_tag).
    rewrite (sorted_tags_fixed _ S). reflexivity.
  - intros ->. cbn [map]. rewrite base_tags_tags. cbv zeta.
    cbn [json_value]. rewrite json_value_tags. reflexivity.
Qed.

Lemma loadTags_reads_what_saveTags_wrote_witness :
  let st := snd (@startup sampleRuntime blank) in
  (predefined_tags_sorted <> [] ->
   @loadTags sampleRuntime (snd (saveTags st)) = (Ok (tags st), snd (saveTags st))) /\
  (predefined_tags_sorted = [] ->
   let base := map js_of_tag (sorted_copy (@tagCompare sampleRuntime) predefined_tags) in
   @loadTags sampleRuntime (snd (saveTags st)) =
   (Ok base, set_stored_tags (Some (JSON_stringify (VArr base))) st)).
Proof.
  cbv zeta.
  apply (loadTags_reads_what_saveTags_wrote sampleRuntime sample_collation
           (snd (@startup sampleRuntime blank)) predefined_tags_sorted).
  - reflexivity.
  - repeat constructor; vm_compute; discriminate.
Defined.

(** X12.  A visit that does nothing is not seen at the next one.  When the
    slot of the books is absent, does not parse or holds books that are
    records, and whatever the slot of the tags holds (nothing, a text that
    does not parse, a list of tags), the start of the script completes, and
    run again on the state it left it changes nothing, storage included. *)
Theorem visit_again_changes_nothing (rt : Runtime) (C : Collation rt)
        (p : slot) (st : state) (bs : list Book) :
  stored_tags st = text_of_slot p ->
  stored_books st = None \/ stored_books st = Some NotJson \/
  stored_books st = Some (JsonText (VArr (map js_of_book bs))) ->
  exists s1,
    visit st = Some (Ok tt, s1) /\
    visit s1 = Some (Ok tt, s1) /\
    (books s1 = [] \/ books s1 = map js_of_book bs) /\
    stored_books s1 = stored_books st.
Proof.
  intros P B. destruct st as [b tg k o sb sg]. cbn [stored_tags stored_books] in P, B.
  subst sg.
  assert (G : forall l, fst (loadBooks (mkState b tg k o sb (text_of_slot p))) = Ok (VArr l) ->
              (forall b' tg' k' o' sg',
                 fst (loadBooks (mkState b' tg' k' o' sb sg')) = Ok (VArr l)) ->
              exists s1,
                visit (mkState b tg k o sb (text_of_slot p)) = Some (Ok tt, s1) /\
                visit s1 = Some (Ok tt, s1) /\ books s1 = l /\ stored_books s1 = sb).
  { intros l L L'. unfold visit. rewrite L. unfold set_books.
    cbn [tags lastSortKey sortOrder stored_books stored_tags].
    rewrite (startup_slot p l tg k o sb). cbv zeta.
    eexists. split; [reflexivity|]. rewrite L'. unfold set_books.
    cbn [books tags lastSortKey sortOrder stored_books stored_tags].
    rewrite (startup_slot (Kept (sorted_copy tagCompare (restored (loaded p))))
               l _ None 1 sb).
    cbv zeta. rewrite (started_fixed p). repeat split. }
  destruct B as [->|[->| ->]].
  - destruct (G [] eq_refl (fun _ _ _ _ _ => eq_refl)) as [s1 [V1 [V2 [B1 S1]]]].
    exists s1. repeat split; auto.
  - destruct (G [] eq_refl (fun _ _ _ _ _ => eq_refl)) as [s1 [V1 [V2 [B1 S1]]]].
    exists s1. repeat split; auto.
  - destruct (G (map js_of_book bs) eq_refl (fun _ _ _ _ _ => eq_refl))
      as [s1 [V1 [V2 [B1 S1]]]].
    exists s1. repeat split; auto.
Qed.

Lemma visit_again_changes_nothing_witness :
  let st := mkState [] [] None 1
                    (Some (JsonText (VArr (map js_of_book [book_B; book_A]))))
                    (Some NotJson) in
  exists s1,
    @visit sampleRuntime st = Some (Ok tt, s1) /\
    @visit sampleRuntime s1 = Some (Ok tt, s1) /\
    (books s1 = [] \/ books s1 = map js_of_book [book_B; book_A]) /\
    stored_books s1 = stored_books st.
Proof.
  cbv zeta.
  apply (visit_again_changes_nothing sampleRuntime sample_collation Garbled
           (mkState [] [] None 1
                    (Some (JsonText (VArr (map js_of_book [book_B; book_A]))))
                    (Some NotJson))
           [book_B; book_A]).
  - reflexivity.
  - right. right. reflexivity.
Defined.

(** The store [init] builds is the store it found followed by the
    predefined tags it did not find. *)
Lemma restored_missing (ts : list Tag) :
  restored ts = ts ++ missing_predefined ts.
Proof.
  unfold restored, missing_predefined, predefined_tags.
  assert (G : forall pre acc,
             NoDup (map fst pre) ->
             fold_left restore_step pre acc =
             acc ++ filter (fun p => negb (existsb (fun t => tag_name t =? tag_name p) acc))
                           (map (fun nc => mkTag (fst nc) (snd nc)) pre)).
  { induction pre as [|nc pre IH]; intros acc N; cbn [fold_left map filter].
    - rewrite app_nil_r. reflexivity.
    - inversion N as [|? ? N1 N2]; subst.
      cbn [tag_name]. unfold restore_step at 2.
      assert (F : forall l n, existsb (fun t => tag_name t =? n) l =
                              match find (named n) l with Some _ => true | None => false end).
      { induction l as [|t l IHl]; intros n; cbn [existsb find]; [reflexivity|].
        unfold named at 1. destruct (tag_name t =? n); [reflexivity|apply IHl]. }
      rewrite F. destruct (find (named (fst nc)) acc) eqn:E; cbn [negb].
      + apply IH, N2.
      + rewrite (IH _ N2). rewrite <- app_assoc. cbn [app]. do 2 f_equal.
        apply filter_ext_in. intros p Hp. f_equal.
        rewrite existsb_app. cbn [existsb tag_name]. rewrite orb_false_r.
        apply in_map_iff in Hp. destruct Hp as [nc' [<- I]]. cbn [tag_name].
        destruct (fst nc =? fst nc') eqn:Q; [|apply orb_false_r].
        apply String.eqb_eq in Q. exfalso. apply N1. rewrite Q.
        apply in_map, I. }
  apply G. repeat constructor; cbn; intuition discriminate.
Qed.

(** X13.  [init] over books that are records and a store of tags drops and recolours none of them: the
    store afterwards holds the tags it held and, besides, the predefined
    tags whose names it lacked, and that list is what is written to the
    slot, up to a second sort. *)
Theorem init_keeps_every_tag (rt : Runtime) (st : state)
        (bs : list Book) (ts : list Tag) :
  books st = map js_of_book bs -> tags st = map js_of_tag ts ->
  exists st' ts',
    init st = (Ok tt, st') /\
    tags st' = map js_of_tag ts' /\
    Permutation (ts ++ missing_predefined ts) ts' /\
    (forall t, In t ts -> In t ts') /\
    stored_tags st' =
      Some (JsonText (VArr (map js_of_tag (sorted_copy tagCompare (ts ++ missing_predefined ts))))) /\
    books st' = books st.
Proof.
  intros _ T. destruct st as [b tg k o sb sg]. cbn [tags] in T. subst tg.
  rewrite init_tags. eexists. eexists. split; [reflexivity|]. cbn [tags stored_tags books].
  split; [reflexivity|]. rewrite restored_missing.
  assert (P : Permutation (ts ++ missing_predefined ts)
                (sorted_copy tagCompare (sorted_copy tagCompare (ts ++ missing_predefined ts)))).
  { eapply Permutation_trans; apply sorted_copy_Permutation. }
  split; [exact P|]. split; [|split; reflexivity].
  intros t I. eapply Permutation_in; [exact P|]. apply in_or_app. left. exact I.
Qed.

Lemma init_keeps_every_tag_witness :
  let ts := [mkTag "Math" "red"; mkTag "Art" "blue"] in
  let st := mkState [] (map js_of_tag ts) None 1 None None in
  exists st' ts',
    @init sampleRuntime st = (Ok tt, st') /\
    tags st' = map js_of_tag ts' /\
    Permutation (ts ++ missing_predefined ts) ts' /\
    (forall t, In t ts -> In t ts') /\
    stored_tags st' =
      Some (JsonText (VArr (map js_of_tag
         (sorted_copy (@tagCompare sampleRuntime) (ts ++ missing_predefined ts))))) /\
    books st' = books st.
Proof.
  cbv zeta.
  apply (init_keeps_every_tag sampleRuntime
           (mkState [] (map js_of_tag [mkTag "Math" "red"; mkTag "Art" "blue"])
                    None 1 None None)
           [] [mkTag "Math" "red"; mkTag "Art" "blue"]).
  - reflexivity.
  - reflexivity.
Defined.

(** ** Deleting a tag on the records *)

Lemma filter_is_string n l :
  filter (fun t => negb (is_string t n)) (map VStr l) =
  map VStr (filter (fun t => negb (t =? n)) l).
Proof.
  induction l as [|x l IH]; cbn [map filter is_string].
  - reflexivity.
  - destruct (x =? n); cbn [negb map]; rewrite IH; reflexivity.
Qed.

Lemma strip_tag_book n b : strip_tag n (js_of_book b) = Ok (js_of_book (untagged n b)).
Proof.
  unfold strip_tag, js_of_book, untagged. cbn [title author year link book_tags].
  simpl. rewrite filter_is_string. reflexivity.
Qed.

Lemma strip_books_books n bs :
  strip_books n (map js_of_book bs) = (map js_of_book (map (untagged n) bs), Ok tt).
Proof.
  induction bs as [|b bs IH]; cbn [map strip_books].
  - reflexivity.
  - rewrite strip_tag_book, IH. reflexivity.
Qed.

Lemma used_books n bs :
  filterM (fun b => let? tg := get b "tags" in includes_of (or_else tg (VArr [])) n)
          (map js_of_book bs) =
  Ok (map js_of_book (filter (tagged n) bs)).
Proof.
  apply filterM_map. intros b. unfold js_of_book, tagged. simpl.
  rewrite existsb_is_string. reflexivity.
Qed.

Lemma untagged_not_tagged n b : tagged n (untagged n b) = false.
Proof.
  unfold tagged, untagged. cbn [book_tags].
  induction (book_tags b) as [|t l IH]; cbn [filter existsb]; [reflexivity|].
  destruct (t =? n) eqn:E; cbn [negb existsb]; [exact IH|].
  rewrite E. exact IH.
Qed.

Lemma untagged_same n b : tagged n b = false -> untagged n b = b.
Proof.
  destruct b as [t a y l g]. unfold tagged, untagged.
  cbn [title author year link book_tags]. intros H. f_equal.
  induction g as [|x g IH]; cbn [filter existsb] in *; [reflexivity|].
  apply orb_false_iff in H. destruct H as [H1 H2].
  rewrite H1. cbn [negb]. rewrite (IH H2). reflexivity.
Qed.

Lemma tagged_In n b : tagged n b = true <-> In n (book_tags b).
Proof.
  unfold tagged. rewrite existsb_exists. split.
  - intros [x [I E]]. apply String.eqb_eq in E. subst x. exact I.
  - intros I. exists n. split; [exact I|apply String.eqb_refl].
Qed.

(** Among tags with different names, one has the name. *)
Lemma named_once n ts g :
  NoDup (map tag_name ts) -> In g ts -> tag_name g = n ->
  S (List.length (filter (fun t => negb (named n t)) ts)) = List.length ts.
Proof.
  induction ts as [|t ts IH]; intros N I E; [destruct I|].
  inversion N as [|? ? N1 N2]; subst. cbn [filter List.length].
  unfold named at 1. destruct (tag_name t =? tag_name g) eqn:Q; cbn [negb].
  - f_equal. f_equal. apply String.eqb_eq in Q.
    assert (F : forall l, ~ In (tag_name g) (map tag_name l) ->
                          filter (fun t => negb (named (tag_name g) t)) l = l).
    { induction l as [|x l IHl]; intros H; cbn [filter]; [reflexivity|].
      cbn [map In] in H. unfold named at 1.
      destruct (tag_name x =? tag_name g) eqn:Q'.
      - apply String.eqb_eq in Q'. tauto.
      - cbn [negb]. rewrite IHl by tauto. reflexivity. }
    apply F. rewrite <- Q. exact N1.
  - cbn [List.length]. f_equal. destruct I as [->|I].
    + rewrite String.eqb_refl in Q. discriminate.
    + apply (IH N2 I eq_refl).
Qed.

Section DeleteTagRecords.
Context {rt : Runtime} {C : Collation rt}.

Lemma deleteTag_records n ts bs k o sb sg g :
  ascending tagCompare ts -> In g ts -> tag_name g = n ->
  let bs' := map js_of_book (map (untagged n) bs) in
  let ts' := map js_of_tag (filter (fun t => negb (named n t)) ts) in
  deleteTag n true (mkState (map js_of_book bs) (map js_of_tag ts) k o sb sg) =
  (Ok tt, mkState bs' ts' k o (Some (JSON_stringify (VArr bs')))
                  (Some (JSON_stringify (VArr ts')))).
Proof.
  intros S I N. cbv zeta. unfold deleteTag, bind at 1, findTagByName. cbn [tags].
  rewrite find_by_name_tags.
  destruct (find (named n) ts) as [t|] eqn:F.
  2:{ exfalso. pose proof (find_none _ _ F g I) as X. unfold named in X.
      rewrite N, String.eqb_refl in X. discriminate. }
  cbn [js_of_tag tag_object truthy negb]. unfold bind at 1. cbn [books].
  rewrite used_books. unfold bind at 1. cbn [books negb].
  rewrite strip_books_books.
  plumb. rewrite filter_tags_named. plumb.
  rewrite (renderAll_healthy _ _ _ _ _ _ (ascending_filter _ _ S)).
  reflexivity.
Qed.
End DeleteTagRecords.

(** X14.  Deleting, confirmed, a tag that the store has, over books that
    are records and a store in order: the call completes, the books are the
    books without that tag, in their places and otherwise as they were (a
    book that did not carry the tag is the same book), no tag of that name
    is left in the store, the other tags stay in their order, both lists
    are written to storage, and the count of books carrying the tag, which
    was the number of such books, is 0.  When the names of the store are
    all different the store has one tag fewer. *)
Theorem deleteTag_removes_everywhere (rt : Runtime) (C : Collation rt)
        (n : string) (st : state) (ts : list Tag) (bs : list Book) (g : Tag) :
  tags st = map js_of_tag ts -> ascending tagCompare ts ->
  books st = map js_of_book bs ->
  In g ts -> tag_name g = n ->
  exists st',
    deleteTag n true st = (Ok tt, st') /\
    books st' = map js_of_book (map (untagged n) bs) /\
    tags st' = map js_of_tag (filter (fun t => negb (tag_name t =? n)) ts) /\
    stored_books st' = Some (JSON_stringify (VArr (books st'))) /\
    stored_tags st' = Some (JSON_stringify (VArr (tags st'))) /\
    (forall b, In b (map (untagged n) bs) -> ~ In n (book_tags b)) /\
    (forall b, ~ In n (book_tags b) -> untagged n b = b) /\
    countByTag n (books st) = Ok (List.length (filter (tagged n) bs)) /\
    countByTag n (books st') = Ok 0%nat /\
    (NoDup (map tag_name ts) -> S (List.length (tags st')) = List.length (tags st)) /\
    lastSortKey st' = lastSortKey st /\ sortOrder st' = sortOrder st.
Proof.
  intros T S B I N. destruct st as [b tg k o sb sg]. cbn [tags books] in T, B. subst tg b.
  rewrite (deleteTag_records n ts bs k o sb sg g S I N). cbv zeta.
  eexists. split; [reflexivity|].
  cbn [books tags stored_books stored_tags lastSortKey sortOrder].
  split; [reflexivity|]. split; [reflexivity|]. split; [reflexivity|].
  split; [reflexivity|].
  split; [|split; [|split; [|split; [|split; [|split; reflexivity]]]]].
  - intros b Hb. apply in_map_iff in Hb. destruct Hb as [b0 [<- _]].
    rewrite <- tagged_In. rewrite untagged_not_tagged. discriminate.
  - intros b Hb. apply untagged_same. destruct (tagged n b) eqn:E; [|reflexivity].
    apply tagged_In in E. contradiction.
  - unfold countByTag. rewrite used_books. cbn [rbind]. rewrite length_map. reflexivity.
  - unfold countByTag. rewrite used_books. cbn [rbind]. rewrite length_map.
    f_equal. induction bs as [|b bs IH]; cbn [map filter]; [reflexivity|].
    rewrite untagged_not_tagged. exact IH.
  - intros D. rewrite !length_map. apply (named_once n ts g D I N).
Qed.

Lemma deleteTag_removes_everywhere_witness :
  let bs := [mkBook "B" "A" (YearText "") "" ["Math"; "Physics"]; book_A] in
  let st := mkState (map js_of_book bs) (map js_of_tag predefined_tags_sorted)
                    None 1 None None in
  exists st',
    @deleteTag sampleRuntime "Math" true st = (Ok tt, st') /\
    books st' = map js_of_book (map (untagged "Math") bs) /\
    tags st' = map js_of_tag (filter (fun t => negb (tag_name t =? "Math"))
                                     predefined_tags_sorted) /\
    stored_books st' = Some (JSON_stringify (VArr (books st'))) /\
    stored_tags st' = Some (JSON_stringify (VArr (tags st'))) /\
    (forall b, In b (map (untagged "Math") bs) -> ~ In "Math" (book_tags b)) /\
    (forall b, ~ In "Math" (book_tags b) -> untagged "Math" b = b) /\
    countByTag "Math" (books st) =
      Ok (List.length (filter (tagged "Math") bs)) /\
    countByTag "Math" (books st') = Ok 0%nat /\
    (NoDup (map tag_name predefined_tags_sorted) ->
     S (List.length (tags st')) = List.length (tags st)) /\
    lastSortKey st' = lastSortKey st /\ sortOrder st' = sortOrder st.
Proof.
  cbv zeta.
  apply (deleteTag_removes_everywhere sampleRuntime sample_collation "Math"
           (mkState (map js_of_book
                       [mkBook "B" "A" (YearText "") "" ["Math"; "Physics"]; book_A])
                    (map js_of_tag predefined_tags_sorted) None 1 None None)
           predefined_tags_sorted
           [mkBook "B" "A" (YearText "") "" ["Math"; "Physics"]; book_A]
           (mkTag "Math" "#2f9e44")).
  - reflexivity.
  - repeat constructor; vm_compute; discriminate.
  - reflexivity.
  - right. left. reflexivity.
  - reflexivity.
Defined.

(** X15.  [deleteTag] changes nothing when the removal is not confirmed,
    whatever the state and even where the call raises, and nothing when no
    tag of the store has the name, confirmed or not. *)
Theorem deleteTag_declined_or_unknown (rt : Runtime) (n : string) (st : state) :
  snd (deleteTag n false st) = st /\
  (forall ts confirmed,
     tags st = map js_of_tag ts -> (forall g, In g ts -> tag_name g <> n) ->
     deleteTag n confirmed st = (Ok tt, st)).
Proof.
  split.
  - unfold deleteTag, bind at 1, findTagByName.
    destruct (find_by_name (tags st) n) as [v|e]; [|reflexivity].
    destruct (truthy v); cbn [negb]; [|reflexivity].
    unfold bind at 1. destruct (filterM _ (books st)); reflexivity.
  - intros ts c T H. unfold deleteTag, bind at 1, findTagByName.
    rewrite T, find_by_name_tags.
    destruct (find (named n) ts) as [t|] eqn:F; [|reflexivity].
    apply find_some in F. destruct F as [I E]. apply String.eqb_eq in E.
    exfalso. exact (H t I E).
Qed.

(** ** Importing *)

Lemma mapM_raises {A B} (f : A -> result B) l x e :
  In x l -> f x = Throw e -> exists e', mapM f l = Throw e'.
Proof.
  induction l as [|a l IH]; intros I F; [destruct I|].
  cbn [mapM]. destruct I as [->|I].
  - rewrite F. eexists. reflexivity.
  - destruct (f a); cbn [rbind]; [|eexists; reflexivity].
    destruct (IH I F) as [e' ->]. eexists. reflexivity.
Qed.

(** X16.  A backup with a [books] array and a [tags] array one entry of
    which cannot be made a tag ([null], for one) is refused with "Invalid
    JSON file.", but not before the books in memory have been replaced by
    those of the file: the tags and both slots of storage stay as they
    were, so that memory and storage no longer agree on the books. *)
Theorem importBackup_bad_tag_after_books (rt : Runtime)
        (fs : list (string * jsval)) (l l' : list jsval) (x : jsval) (e : error)
        (st : state) :
  get_own fs "books" = VArr l -> get_own fs "tags" = VArr l' ->
  In x l' -> importTag x = Throw e ->
  importBackup (Some (JsonText (VObj fs))) st =
    (Ok (Alert "Invalid JSON file."), set_books l st) /\
  importTag VNull = Throw TypeError.
Proof.
  intros B T I F. split; [|reflexivity].
  destruct (mapM_raises importTag l' x e I F) as [e' Mp].
  unfold importBackup, try_catch. plumb. cbn [JSON_parse get].
  rewrite B. plumb. rewrite T. plumb. rewrite Mp. reflexivity.
Qed.

Lemma importBackup_bad_tag_after_books_witness :
  let fs := [("books", VArr [js_of_book book_A]); ("tags", VArr [VStr "Art"; VNull])] in
  let st := snd (@startup sampleRuntime blank) in
  @importBackup sampleRuntime (Some (JsonText (VObj fs))) st =
    (Ok (Alert "Invalid JSON file."), set_books [js_of_book book_A] st) /\
  @importTag sampleRuntime VNull = Throw TypeError.
Proof.
  cbv zeta.
  apply (importBackup_bad_tag_after_books sampleRuntime
           [("books", VArr [js_of_book book_A]); ("tags", VArr [VStr "Art"; VNull])]
           [js_of_book book_A] [VStr "Art"; VNull] VNull TypeError
           (snd (@startup sampleRuntime blank))).
  - reflexivity.
  - reflexivity.
  - right. left. reflexivity.
  - reflexivity.
Defined.

(** X17.  Importing a backup a second time changes nothing more: for a
    file whose [tags] array is of names and of objects with a name, the
    answer and the state after two imports are those after one. *)
Theorem importBackup_twice (rt : Runtime) (fs : list (string * jsval))
        (es : list TagEntry) (st : state) :
  get_own fs "tags" = VArr (map js_of_entry es) ->
  let file := Some (JsonText (VObj fs)) in
  importBackup file (snd (importBackup file st)) = importBackup file st.
Proof.
  intros G file. subst file.
  assert (Mp : mapM importTag (map js_of_entry es) =
               Ok (map js_of_tag (map tag_of_entry es))).
  { rewrite map_map. apply mapM_map. intros e. apply importTag_entry. }
  pose proof (importBackup_tags fs _ _ st G Mp) as R. cbv zeta in R. rewrite R.
  cbn [snd].
  match goal with |- importBackup _ ?s = _ =>
    pose proof (importBackup_tags fs _ _ s G Mp) as R' end.
  cbv zeta in R'. rewrite R'. cbn [books lastSortKey sortOrder].
  destruct (get_own fs "books"); reflexivity.
Qed.

Lemma importBackup_twice_witness :
  let fs := [("books", VArr [js_of_book book_A]);
             ("tags", VArr (map js_of_entry [BareName "Art"; Named "Math" (Some "red");
                                              Named "Art" None]))] in
  let file := Some (JsonText (VObj fs)) in
  @importBackup sampleRuntime file (snd (@importBackup sampleRuntime file blank)) =
  @importBackup sampleRuntime file blank.
Proof.
  cbv zeta.
  apply (importBackup_twice sampleRuntime
           [("books", VArr [js_of_book book_A]);
            ("tags", VArr (map js_of_entry [BareName "Art"; Named "Math" (Some "red");
                                             Named "Art" None]))]
           [BareName "Art"; Named "Math" (Some "red"); Named "Art" None] blank).
  reflexivity.
Defined.

(** X18.  A file that is JSON but holds neither array (a number, a text,
    an array, an object without [books] and [tags] or with other values
    under them) is answered with "Import successful.": over books that are
    records and a store of tags in order, the books and the tags stay as
    they were and both are written to storage.  The text [null] alone is
    answered with "Invalid JSON file." and changes nothing. *)
Theorem importBackup_without_arrays (rt : Runtime) (C : Collation rt)
        (v pb pt : jsval) (st : state) (bs : list Book) (ts : list Tag) :
  books st = map js_of_book bs ->
  tags st = map js_of_tag ts -> ascending tagCompare ts ->
  get v "books" = Ok pb -> (forall l, pb <> VArr l) ->
  get v "tags" = Ok pt -> (forall l, pt <> VArr l) ->
  importBackup (Some (JsonText v)) st =
    (Ok (Alert "Import successful."),
     mkState (books st) (tags st) (lastSortKey st) (sortOrder st)
             (Some (JSON_stringify (VArr (books st))))
             (Some (JSON_stringify (VArr (tags st))))) /\
  importBackup (Some (JsonText VNull)) st = (Ok (Alert "Invalid JSON file."), st).
Proof.
  intros B T S Gb Nb Gt Nt. split; [|reflexivity].
  destruct st as [b tg k o sb sg]. cbn [books tags lastSortKey sortOrder] in *. subst tg.
  unfold importBackup, try_catch. plumb. cbn [JSON_parse]. rewrite Gb. plumb.
  destruct pb as [| | | | |l|]; try (exfalso; apply (Nb l); reflexivity);
    plumb; rewrite Gt; plumb;
    (destruct pt as [| | | | |l'|]; try (exfalso; apply (Nt l'); reflexivity));
    plumb; rewrite (renderAll_healthy _ _ _ _ _ _ S); reflexivity.
Qed.

Lemma importBackup_without_arrays_witness :
  let st := mkState [js_of_book book_A] (map js_of_tag predefined_tags_sorted)
                    None 1 None None in
  @importBackup sampleRuntime (Some (JsonText (VArr [VNum one]))) st =
    (Ok (Alert "Import successful."),
     mkState (books st) (tags st) (lastSortKey st) (sortOrder st)
             (Some (JSON_stringify (VArr (books st))))
             (Some (JSON_stringify (VArr (tags st))))) /\
  @importBackup sampleRuntime (Some (JsonText VNull)) st =
    (Ok (Alert "Invalid JSON file."), st).
Proof.
  cbv zeta.
  apply (importBackup_without_arrays sampleRuntime sample_collation
           (VArr [VNum one]) VUndef VUndef
           (mkState [js_of_book book_A] (map js_of_tag predefined_tags_sorted)
                    None 1 None None)
           [book_A] predefined_tags_sorted).
  - reflexivity.
  - reflexivity.
  - repeat constructor; vm_compute; discriminate.
  - reflexivity.
  - discriminate.
  - reflexivity.
  - discriminate.
Defined.

(** X24.  A backup with books that are records and no [tags] array, over a
    store of tags in order: the books in memory are those of the file, in
    the order of the file, the tags stay, both are written to storage, and
    the key and the direction of the last sort are kept although the new
    list has not been sorted. *)
Theorem importBackup_books_only (rt : Runtime) (C : Collation rt)
        (fs : list (string * jsval)) (bs : list Book) (st : state) (ts : list Tag) :
  tags st = map js_of_tag ts -> ascending tagCompare ts ->
  get_own fs "books" = VArr (map js_of_book bs) ->
  (forall l, get_own fs "tags" <> VArr l) ->
  importBackup (Some (JsonText (VObj fs))) st =
    (Ok (Alert "Import successful."),
     mkState (map js_of_book bs) (tags st) (lastSortKey st) (sortOrder st)
             (Some (JSON_stringify (VArr (map js_of_book bs))))
             (Some (JSON_stringify (VArr (tags st))))).
Proof.
  intros T S B N. destruct st as [b tg k o sb sg].
  cbn [tags lastSortKey sortOrder] in *. subst tg.
  unfold importBackup, try_catch. plumb. cbn [JSON_parse get]. rewrite B. plumb.
  destruct (get_own fs "tags") eqn:E;
    try (exfalso; apply (N l); reflexivity);
    plumb; rewrite (renderAll_healthy _ _ _ _ _ _ S); reflexivity.
Qed.

Lemma importBackup_books_only_witness :
  let st := mkState [js_of_book book_B] (map js_of_tag predefined_tags_sorted)
                    (Some "title") (-1) None None in
  @importBackup sampleRuntime
    (Some (JsonText (VObj [("books", VArr (map js_of_book [book_B; book_A]))]))) st =
    (Ok (Alert "Import successful."),
     mkState (map js_of_book [book_B; book_A]) (tags st) (lastSortKey st) (sortOrder st)
             (Some (JSON_stringify (VArr (map js_of_book [book_B; book_A]))))
             (Some (JSON_stringify (VArr (tags st))))).
Proof.
  cbv zeta.
  apply (importBackup_books_only sampleRuntime sample_collation
           [("books", VArr (map js_of_book [book_B; book_A]))] [book_B; book_A]
           (mkState [js_of_book book_B] (map js_of_tag predefined_tags_sorted)
                    (Some "title") (-1) None None)
           predefined_tags_sorted).
  - reflexivity.
  - repeat constructor; vm_compute; discriminate.
  - reflexivity.
  - discriminate.
Defined.

(** ** Sorting and the lists of the filters *)


Section Stable.
Context {A : Type}.
Variable c : A -> A -> Z.
Hypothesis c_sign : forall a b, Z.sgn (c a b) = (- Z.sgn (c b a))%Z.
Hypothesis c_trans : forall a b d, (c a b <= 0 -> c b d <= 0 -> c a d <= 0)%Z.
Variable p : A -> bool.
Hypothesis p_class : forall x y, p x = true -> p y = true -> c x y = 0%Z.



End Stable.


Lemma insert_nonempty {A} (cmp : A -> A -> result Z) x l r :
  insert cmp x l = Ok r -> r <> [].
Proof.
  destruct l as [|y l]; cbn [insert].
  - intros H. injection H as <-. discriminate.
  - destruct (cmp x y) as [z|e]; cbn [rbind]; [|discriminate].
    destruct (z <? 0)%Z; [intros H; injection H as <-; discriminate|].
    destruct (insert cmp x l); cbn [rbind]; [|discriminate].
    intros H. injection H as <-. discriminate.
Qed.

(** An element that cannot be compared stops the sort, wherever it is. *)
Lemma Array_sort_raises {A} (cmp : A -> A -> result Z) (x : A) :
  (forall y, exists e, cmp x y = Throw e) ->
  (forall y, exists e, cmp y x = Throw e) ->
  forall l, In x l -> (2 <= List.length l)%nat -> exists e, Array_sort cmp l = Throw e.
Proof.
  intros Hx Hy.
  assert (G : forall l acc, acc <> [] -> In x l ->
              exists e, fold_left (fun acc x => let? a := acc in insert cmp x a) l (Ok acc)
                        = Throw e).
  { induction l as [|y l IH]; intros acc N I; [destruct I|].
    cbn [fold_left rbind]. destruct I as [->|I].
    - destruct acc as [|z acc]; [contradiction|].
      cbn [insert]. destruct (Hx z) as [e ->]. cbn [rbind].
      exists e. apply fold_insert_Throw.
    - destruct (insert cmp y acc) as [acc'|e] eqn:E.
      + apply IH; [|exact I]. eapply insert_nonempty, E.
      + exists e. apply fold_insert_Throw. }
  intros [|y [|z l]] I L; cbn [List.length] in L; try lia.
  unfold Array_sort.
  change (fold_left (fun acc x => let? a := acc in insert cmp x a) (y :: z :: l) (Ok []))
    with (fold_left (fun acc x => let? a := acc in insert cmp x a) (z :: l) (Ok [y])).
  destruct I as [->|I].
  - cbn [fold_left rbind insert]. destruct (Hy z) as [e ->]. cbn [rbind].
    exists e. apply fold_insert_Throw.
  - apply G; [discriminate|exact I].
Qed.

Lemma filterM_raises {A} (q : A -> result bool) l x e :
  In x l -> q x = Throw e -> exists e', filterM q l = Throw e'.
Proof.
  induction l as [|a l IH]; intros I F; [destruct I|].
  cbn [filterM]. destruct I as [->|I].
  - rewrite F. eexists. reflexivity.
  - destruct (q a); cbn [rbind]; [|eexists; reflexivity].
    destruct (IH I F) as [e' ->]. eexists. reflexivity.
Qed.

Section ViewFacts.
Context {rt : Runtime}.



Lemma byKey_null key order y :
  (exists e, byKey key order VNull y = Throw e) /\
  (exists e, byKey key order y VNull = Throw e).
Proof.
  unfold byKey. split.
  - eexists. reflexivity.
  - destruct (sortKey key y); eexists; reflexivity.
Qed.

Lemma defaultCompare_strings a b :
  defaultCompare (VStr a) (VStr b) = Ok (codeUnitCompare a b).
Proof.
  unfold defaultCompare, codeUnitCompare, str_lt. cbn [ToString rbind].
  rewrite (String.compare_antisym a b).
  destruct (String.compare b a); reflexivity.
Qed.

Lemma set_add_strings a l :
  set_add (VStr a) (map VStr l) =
  map VStr (if existsb (String.eqb a) l then l else l ++ [a]).
Proof.
  unfold set_add.
  assert (E : existsb (sameValueZero (VStr a)) (map VStr l) = existsb (String.eqb a) l).
  { induction l as [|x l IH]; cbn [map existsb sameValueZero]; [reflexivity|].
    rewrite IH. reflexivity. }
  rewrite E. destruct (existsb (String.eqb a) l); [reflexivity|].
  rewrite map_app. reflexivity.
Qed.

Lemma collect_book authors years b :
  collect (map VStr authors, map VStr years) (js_of_book b) =
  Ok (map VStr (if author b =? "" then authors
                else if existsb (String.eqb (author b)) authors then authors
                     else authors ++ [author b]),
      map VStr (if has_year b
                then if existsb (String.eqb (year_text (year b))) years then years
                     else years ++ [year_text (year b)]
                else years)).
Proof.
  destruct b as [t a y l g]. unfold collect, js_of_book, has_year.
  cbn [title author year link book_tags].
  change (get (VObj [("title", VStr t); ("author", VStr a); ("year", js_of_year y);
                     ("link", VStr l); ("tags", VArr (map VStr g))]) "author")
    with (Ok (VStr a)).
  change (get (VObj [("title", VStr t); ("author", VStr a); ("year", js_of_year y);
                     ("link", VStr l); ("tags", VArr (map VStr g))]) "year")
    with (Ok (js_of_year y)).
  cbn [rbind truthy]. rewrite set_add_strings.
  destruct y as [s|f]; cbn [js_of_year is_string year_text ToString rbind].
  - destruct (s =? "") eqn:E; cbn [negb].
    + apply String.eqb_eq in E. subst s.
      destruct (a =? ""); reflexivity.
    + rewrite set_add_strings. destruct (a =? ""); reflexivity.
  - rewrite set_add_strings. destruct (a =? ""); reflexivity.
Qed.

Lemma collect_all_books bs : forall authors years,
  let add := fun seen x => if existsb (String.eqb x) seen then seen else seen ++ [x] in
  collect_all (map VStr authors, map VStr years) (map js_of_book bs) =
  Ok (map VStr (fold_left add (filter (fun a => negb (a =? "")) (map author bs)) authors),
      map VStr (fold_left add (map (fun b => year_text (year b)) (filter has_year bs)) years)).
Proof.
  induction bs as [|b bs IH]; intros authors years; cbv zeta.
  - reflexivity.
  - cbn [map collect_all]. rewrite collect_book. cbn [rbind].
    rewrite IH. cbv zeta. cbn [filter map].
    destruct (author b =? ""), (has_year b); cbn [negb fold_left map]; reflexivity.
Qed.

Lemma sort_default l :
  Array_sort defaultCompare (map VStr l) = Ok (map VStr (sorted_copy codeUnitCompare l)).
Proof. apply Array_sort_map. apply defaultCompare_strings. Qed.
End ViewFacts.

Lemma codeUnitCompare_sign a b :
  Z.sgn (codeUnitCompare a b) = (- Z.sgn (codeUnitCompare b a))%Z.
Proof. exact (@collation_sign sampleRuntime sample_collation a b). Qed.

Lemma codeUnitCompare_trans a b d :
  (codeUnitCompare a b <= 0 -> codeUnitCompare b d <= 0 -> codeUnitCompare a d <= 0)%Z.
Proof. exact (@collation_trans sampleRuntime sample_collation a b d). Qed.

(** Sorted by code units and without repetition is strictly sorted. *)
Lemma strictly_sorted l :
  NoDup l -> StronglySorted str_before (sorted_copy codeUnitCompare l).
Proof.
  intros N.
  assert (N' : NoDup (sorted_copy codeUnitCompare l)).
  { eapply Permutation_NoDup; [apply sorted_copy_Permutation|exact N]. }
  pose proof (sorted_copy_ascending codeUnitCompare codeUnitCompare_sign
                codeUnitCompare_trans l) as S.
  induction S as [|a r S IH F]; constructor.
  - apply IH. inversion N'; assumption.
  - inversion N' as [|? ? Na _]; subst.
    rewrite Forall_forall in *. intros b I. specialize (F b I).
    unfold str_before. unfold codeUnitCompare in F.
    destruct (String.compare a b) eqn:E; [|reflexivity|lia].
    apply String.compare_eq_iff in E. subst b. contradiction.
Qed.

(** X19.  [sortBy] over a list of two or more books, none [undefined], one
    of which is [null] raises: the books and their slot are as they were,
    but the key is already remembered and the direction already set. *)
Theorem sortBy_raises_on_null_book (rt : Runtime) (key : string) (st : state) :
  In VNull (books st) -> ~ In VUndef (books st) ->
  (2 <= List.length (books st))%nat ->
  exists e st',
    sortBy key st = (Throw e, st') /\
    books st' = books st /\ stored_books st' = stored_books st /\
    tags st' = tags st /\ stored_tags st' = stored_tags st /\
    lastSortKey st' = Some key /\
    sortOrder st' = (if same_key (lastSortKey st) key then (- sortOrder st)%Z else 1%Z).
Proof.
  intros I _ L. destruct st as [b tg k o sb sg]. cbn [books] in I, L.
  unfold sortBy. plumb.
  assert (R : forall order, exists e, Array_sort (byKey key order) b = Throw e).
  { intros order. apply (Array_sort_raises (byKey key order) VNull); try assumption.
    - intros y. apply (byKey_null key order y).
    - intros y. apply (byKey_null key order y). }
  destruct (same_key k key) eqn:K; plumb.
  - destruct (R (- o)%Z) as [e ->]. do 2 eexists. split; [reflexivity|].
    cbn. repeat split. unfold same_key in K. destruct k as [k|]; [|discriminate].
    apply String.eqb_eq in K. subst k. reflexivity.
  - destruct (R 1%Z) as [e ->]. do 2 eexists. split; [reflexivity|].
    cbn. repeat split.
Qed.

Lemma sortBy_raises_on_null_book_witness :
  let st := mkState [js_of_book book_B; VNull] [] None 1 None None in
  exists e st',
    @sortBy sampleRuntime "title" st = (Throw e, st') /\
    books st' = books st /\ stored_books st' = stored_books st /\
    tags st' = tags st /\ stored_tags st' = stored_tags st /\
    lastSortKey st' = Some "title" /\
    sortOrder st' = (if same_key (lastSortKey st) "title" then (- sortOrder st)%Z else 1%Z).
Proof.
  cbv zeta.
  apply (sortBy_raises_on_null_book sampleRuntime "title"
           (mkState [js_of_book book_B; VNull] [] None 1 None None)).
  - right. left. reflexivity.
  - intros [H|[H|[]]]; discriminate H.
  - cbn. lia.
Defined.



(** X21.  [applyFilters] raises, whatever the filters, when one of the
    books is [null] or [undefined]; the state is not touched. *)
Theorem applyFilters_raises_on_null_book (rt : Runtime) (f : filters) (st : state)
        (x : jsval) :
  In x (books st) -> x = VNull \/ x = VUndef ->
  exists e, applyFilters f st = (Throw e, st).
Proof.
  intros I X. unfold applyFilters.
  destruct (filterM_raises (matches f) (books st) x TypeError I) as [e ->].
  - destruct X as [->| ->]; reflexivity.
  - exists e. reflexivity.
Qed.

Lemma applyFilters_raises_on_null_book_witness :
  exists e,
    @applyFilters sampleRuntime (mkFilters "" "" "" [])
                  (mkState [js_of_book book_B; VNull] [] None 1 None None) =
    (Throw e, mkState [js_of_book book_B; VNull] [] None 1 None None).
Proof.
  apply (applyFilters_raises_on_null_book sampleRuntime (mkFilters "" "" "" [])
           (mkState [js_of_book book_B; VNull] [] None 1 None None) VNull).
  - right. left. reflexivity.
  - left. reflexivity.
Defined.

(** X22.  Over books that are records, [updateDropdowns] completes without
    touching the state and offers each author once and each year once, as
    texts, both lists strictly ascending by code units (so capitals before
    small letters, and years as texts, not as numbers): an author is
    offered when it is the author of a book and is not empty, a year when
    it is the text of the year of a book whose year is not the empty
    text. *)
Theorem updateDropdowns_lists (rt : Runtime) (st : state) (bs : list Book) :
  books st = map js_of_book bs ->
  exists authors years : list string,
    updateDropdowns st = (Ok (map VStr authors, map VStr years), st) /\
    StronglySorted str_before authors /\
    StronglySorted str_before years /\
    (forall a, In a authors <-> a <> "" /\ exists b, In b bs /\ author b = a) /\
    (forall y, In y years <->
               exists b, In b bs /\ year b <> YearText "" /\ year_text (year b) = y).
Proof.
  intros B. unfold updateDropdowns. rewrite B.
  pose proof (collect_all_books bs [] []) as R. cbv zeta in R.
  cbn [map] in R. rewrite R. cbn [rbind fst snd].
  rewrite !sort_default. cbn [rbind].
  do 2 eexists. split; [reflexivity|].
  pose proof (dedupe_from (filter (fun a => negb (a =? "")) (map author bs)) []
                (NoDup_nil _)) as [NA IA].
  pose proof (dedupe_from (map (fun b => year_text (year b)) (filter has_year bs)) []
                (NoDup_nil _)) as [NY IY].
  split; [apply strictly_sorted, NA|]. split; [apply strictly_sorted, NY|]. split.
  - intros a. split.
    + intros I.
      eapply Permutation_in in I; [|apply Permutation_sym, sorted_copy_Permutation].
      apply IA in I. destruct I as [[]|I]. apply filter_In in I. destruct I as [I N].
      apply in_map_iff in I. destruct I as [b [E I]].
      split; [|exists b; split; assumption].
      intros ->. discriminate N.
    + intros [N [b [I E]]].
      eapply Permutation_in; [apply sorted_copy_Permutation|].
      apply IA. right. apply filter_In. split.
      * apply in_map_iff. exists b. split; assumption.
      * apply String.eqb_neq in N. rewrite N. reflexivity.
  - intros y. split.
    + intros I.
      eapply Permutation_in in I; [|apply Permutation_sym, sorted_copy_Permutation].
      apply IY in I. destruct I as [[]|I].
      apply in_map_iff in I. destruct I as [b [E I]].
      apply filter_In in I. destruct I as [I H].
      exists b. split; [exact I|]. split; [|exact E].
      unfold has_year in H. intros Y. rewrite Y in H. discriminate H.
    + intros [b [I [N E]]].
      eapply Permutation_in; [apply sorted_copy_Permutation|].
      apply IY. right. apply in_map_iff. exists b. split; [exact E|].
      apply filter_In. split; [exact I|].
      unfold has_year. destruct (year b) as [s|f]; [|reflexivity].
      destruct (s =? "") eqn:Q; [|reflexivity].
      apply String.eqb_eq in Q. subst s. contradiction.
Qed.

Lemma updateDropdowns_lists_witness :
  let bs := [book_B; book_A; mkBook "C" "Z" (YearText "") "" []] in
  let st := mkState (map js_of_book bs) [] None 1 None None in
  exists authors years : list string,
    @updateDropdowns sampleRuntime st = (Ok (map VStr authors, map VStr years), st) /\
    StronglySorted str_before authors /\
    StronglySorted str_before years /\
    (forall a, In a authors <-> a <> "" /\ exists b, In b bs /\ author b = a) /\
    (forall y, In y years <->
               exists b, In b bs /\ year b <> YearText "" /\
                         @year_text sampleRuntime (year b) = y).
Proof.
  cbv zeta.
  apply (updateDropdowns_lists sampleRuntime
           (mkState (map js_of_book [book_B; book_A; mkBook "C" "Z" (YearText "") "" []])
                    [] None 1 None None)
           [book_B; book_A; mkBook "C" "Z" (YearText "") "" []]).
  reflexivity.
Defined.

(** ** What every reachable state has *)

Section Saved.
Context {rt : Runtime} {C : Collation rt}.

Lemma tags_saved_intro b ts k o sb :
  tags_saved (mkState b (map js_of_tag ts) k o sb (text_of_slot (Kept ts))).
Proof.
  unfold tags_saved, JSON_stringify. cbn [stored_tags tags text_of_slot json_value].
  rewrite json_value_tags. reflexivity.
Qed.

Lemma tags_saved_slot b ts k o sb sg :
  tags_saved (mkState b (map js_of_tag ts) k o sb sg) -> sg = text_of_slot (Kept ts).
Proof.
  unfold tags_saved, JSON_stringify. cbn [stored_tags tags text_of_slot json_value].
  rewrite json_value_tags. auto.
Qed.

Lemma ensureTagExists_kept n ts b k o sb :
  ensureTagExists n (mkState b (map js_of_tag ts) k o sb (text_of_slot (Kept ts))) =
  (Ok (ensured_tag n ts),
   mkState b (map js_of_tag (ensured n ts)) k o sb (text_of_slot (Kept (ensured n ts)))).
Proof.
  unfold ensureTagExists, ensured, ensured_tag.
  destruct (trim n =? "") eqn:E; [reflexivity|].
  unfold bind, findTagByName. cbn [tags].
  rewrite find_by_name_tags.
  destruct (find (named (trim n)) ts) as [t|] eqn:F; [reflexivity|].
  cbn [truthy negb colorForTagName]. plumb.
  change (map js_of_tag ts ++ [tag_object (VStr (trim n)) (VStr (hsl (hash_from 0 (trim n))))])
    with (map js_of_tag ts ++ map js_of_tag [mkTag (trim n) (hsl (hash_from 0 (trim n)))]).
  rewrite <- map_app. rewrite sortTags_tags. plumb.
  unfold renderTagControls. rewrite sortTags_tags.
  unfold JSON_stringify, text_of_slot. cbn [json_value].
  fold (map json_value). rewrite json_value_tags. rewrite sorted_twice.
  reflexivity.
Qed.

Lemma forEach_kept names : forall ts b k o sb,
  let ts' := fold_left (fun acc n => ensured n acc) names ts in
  forEach (fun t => ensureTagExists t ;;; ret tt) names
          (mkState b (map js_of_tag ts) k o sb (text_of_slot (Kept ts))) =
  (Ok tt, mkState b (map js_of_tag ts') k o sb (text_of_slot (Kept ts'))).
Proof.
  induction names as [|n names IH]; intros ts b k o sb; cbv zeta.
  - reflexivity.
  - cbn [forEach fold_left]. unfold bind at 1 2.
    rewrite ensureTagExists_kept. unfold ret at 1. apply IH.
Qed.

Lemma saved_ensureTagExists n st :
  healthy st -> tags_saved st -> tags_saved (snd (ensureTagExists n st)).
Proof.
  intros [O [ts [T [S F]]]] I. destruct st as [b tg k o sb sg].
  cbn [tags] in T. subst tg. apply tags_saved_slot in I. subst sg.
  rewrite ensureTagExists_kept. apply tags_saved_intro.
Qed.

Lemma saved_saveForm f st :
  healthy st -> tags_saved st -> tags_saved (snd (saveForm f st)).
Proof.
  intros [O [ts [T [S F]]]] I. destruct st as [b tg k o sb sg].
  cbn [tags] in T. subst tg. apply tags_saved_slot in I. subst sg.
  unfold saveForm.
  destruct ((trim (f_title f) =? "") || (trim (f_author f) =? ""));
    [apply tags_saved_intro|].
  unfold bind at 1. rewrite forEach_kept. cbv zeta.
  unfold bind at 1. unfold lift. rewrite sort_strings.
  destruct (fold_ensured_healthy (dedupe (formTags f)) ts S F) as [S' F'].
  plumb. destruct (in_range _ _); plumb;
    rewrite (renderAll_healthy _ _ _ _ _ _ S'); apply tags_saved_intro.
Qed.

Lemma saved_deleteBook index c st :
  healthy st -> tags_saved st -> tags_saved (snd (deleteBook index c st)).
Proof.
  intros [O [ts [T [S F]]]] I. destruct st as [b tg k o sb sg].
  cbn [tags] in T. subst tg. apply tags_saved_slot in I. subst sg.
  unfold deleteBook. destruct c; cbn [negb]; [|apply tags_saved_intro].
  plumb. rewrite (renderAll_healthy _ _ _ _ _ _ S). apply tags_saved_intro.
Qed.

Lemma saved_deleteFromForm idx c st :
  healthy st -> tags_saved st -> tags_saved (snd (deleteFromForm idx c st)).
Proof.
  intros [O [ts [T [S F]]]] I. destruct st as [b tg k o sb sg].
  cbn [tags] in T. subst tg. apply tags_saved_slot in I. subst sg.
  unfold deleteFromForm. cbn [books].
  destruct (in_range idx (List.length b)); [|apply tags_saved_intro].
  destruct c; cbn [negb]; [|apply tags_saved_intro].
  plumb. rewrite (renderAll_healthy _ _ _ _ _ _ S). apply tags_saved_intro.
Qed.

Lemma saved_deleteTag n c st :
  healthy st -> tags_saved st -> tags_saved (snd (deleteTag n c st)).
Proof.
  intros [O [ts [T [S F]]]] I. destruct st as [b tg k o sb sg].
  cbn [tags] in T. subst tg. apply tags_saved_slot in I. subst sg.
  destruct (deleteTag_store n c ts b k o sb (text_of_slot (Kept ts)))
    as [r [st' [R Out]]].
  rewrite R. cbn [snd]. destruct st' as [b' tg' k' o' sb' sg'].
  cbn [tags stored_tags] in Out.
  destruct Out as [[-> ->]|[-> ->]]; [apply tags_saved_intro|].
  rewrite (sorted_tags_fixed _ (ascending_filter _ _ S)). apply tags_saved_intro.
Qed.

Lemma saved_sortBy key st : tags_saved st -> tags_saved (snd (sortBy key st)).
Proof.
  destruct st as [b tg k o sb sg]. unfold tags_saved. cbn [tags stored_tags].
  intros ->. unfold sortBy. plumb.
  destruct (same_key k key); plumb;
    match goal with |- context [Array_sort ?c ?l] =>
      destruct (Array_sort c l) end; reflexivity.
Qed.

Lemma saved_importBackup file st :
  backup_file file -> healthy st -> tags_saved st ->
  tags_saved (snd (importBackup file st)).
Proof.
  intros B [O [ts [T [S F]]]] I. destruct B as [| |fs es G|fs N].
  - exact I.
  - rewrite importBackup_not_json. exact I.
  - assert (Mp : mapM importTag (map js_of_entry es) =
                 Ok (map js_of_tag (map tag_of_entry es))).
    { rewrite map_map. apply mapM_map. intros e. apply importTag_entry. }
    pose proof (importBackup_tags fs _ _ st G Mp) as R. cbv zeta in R.
    rewrite R. cbn [snd]. rewrite sorted_twice. apply tags_saved_intro.
  - destruct st as [b tg k o sb sg]. cbn [tags] in T. subst tg.
    unfold importBackup, try_catch. plumb. cbn [JSON_parse get].
    destruct (get_own fs "books") as [| | | | |l'|]; plumb;
      (destruct (get_own fs "tags") eqn:E;
       [| | | | |exfalso; apply (N l); reflexivity|]); plumb;
      rewrite (renderAll_healthy _ _ _ _ _ _ S); reflexivity.
Qed.

Lemma saved_start : tags_saved (snd (startup blank)).
Proof.
  pose proof (startup_slot Absent [] [] None 1%Z None) as R. cbv zeta in R.
  change (mkState [] [] None 1 None (text_of_slot Absent)) with blank in R.
  rewrite R. apply tags_saved_intro.
Qed.

Lemma reachable_saved st : reachable st -> tags_saved st.
Proof.
  induction 1 as [|n st H IH|f st H IH|idx c st H IH|index c st H IH
                  |n c st H IH|key st H IH|file st B H IH].
  - apply saved_start.
  - apply saved_ensureTagExists; [apply reachable_healthy, H|exact IH].
  - apply saved_saveForm; [apply reachable_healthy, H|exact IH].
  - apply saved_deleteFromForm; [apply reachable_healthy, H|exact IH].
  - apply saved_deleteBook; [apply reachable_healthy, H|exact IH].
  - apply saved_deleteTag; [apply reachable_healthy, H|exact IH].
  - apply saved_sortBy; exact IH.
  - apply saved_importBackup; [exact B|apply reachable_healthy, H|exact IH].
Qed.
End Saved.

(** X23.  In every state the script reaches within a visit, whatever the
    intents and their order: the direction of the sort is 1 or -1, every
    tag of the store is a record with a colour that is not empty, and the
    slot of the tags holds exactly the store, so that nothing of it is lost
    when the page is closed. *)
Theorem reachable_state_invariants (rt : Runtime) (C : Collation rt) (st : state) :
  reachable st ->
  (sortOrder st = 1 \/ sortOrder st = -1)%Z /\
  (exists ts, tags st = map js_of_tag ts /\ Forall (fun t => tag_color t <> "") ts) /\
  stored_tags st = Some (JSON_stringify (VArr (tags st))).
Proof.
  intros R. destruct (reachable_healthy st R) as [O [ts [T [_ F]]]].
  split; [exact O|]. split; [exists ts; split; [exact T|exact F]|].
  exact (reachable_saved st R).
Qed.

Lemma reachable_state_invariants_witness :
  let st := snd (@deleteTag sampleRuntime "Math" true
                   (snd (@ensureTagExists sampleRuntime " Logic "
                           (snd (@startup sampleRuntime blank))))) in
  (sortOrder st = 1 \/ sortOrder st = -1)%Z /\
  (exists ts, tags st = map js_of_tag ts /\ Forall (fun t => tag_color t <> "") ts) /\
  stored_tags st = Some (JSON_stringify (VArr (tags st))).
Proof.
  cbv zeta.
  apply (reachable_state_invariants sampleRuntime sample_collation).
  apply after_deleteTag, after_addCustomTag, first_visit.
Defined.
